(** * Super-TXT: the crawl core of [app.py], embedded in Rocq

    The development follows the layout of [app.py]:
    - Python text ([str]) and the string methods the program calls;
    - [slugify];
    - the robots.txt reader ([fetch_robots_disallows], [allowed_by_robots]);
    - the scope checks ([same_domain], [under_prefix], [extract_links]);
    - the address mapper ([path_for_url]) and the metadata and fragment
      helpers over the parsed document;
    - the crawl loop of [acrawl] as a state machine over an explicit state;
    - the wizard as a function of the answers given at its prompts, and
      the main program as the wizard followed by the crawl.

    Text is modelled as lists of [ascii] characters and the character
    predicates ([isspace], [lower], ...) are those of Python on ASCII text.
    What the program imports ([urllib.parse], BeautifulSoup's parser, httpx,
    the Crawl4AI renderer, markdownify) is kept abstract behind type
    classes: every theorem holds whatever these do.  Their calls are taken
    to return; where the program catches their exceptions ([fetch_html],
    [fetch_robots_disallows], [md_fallback]) the exception is an outcome of
    the call.  A model of [urllib.parse] and a small site serve the worked
    examples.

    Not modelled: the banner and the tables printed on the terminal, the
    index files and the ZIP written after the loop, and the creation of
    directories.  The built-in [int] the wizard calls is a parameter. *)

From Stdlib Require Import List Ascii ZArith NArith Lia Bool.
From Stdlib Require Import Relations Wellfounded.
Import ListNotations.

(* ===================================================================== *)
(** * Python text *)
(* ===================================================================== *)

Module PyStr.

(** A Python [str] whose characters are ASCII. *)
Definition str := list ascii.

Inductive str_lit := SNil | SCons (c : ascii) (s : str_lit).

Fixpoint str_lit_of_bytes (l : list Byte.byte) : str_lit :=
  match l with
  | [] => SNil
  | b :: l => SCons (ascii_of_byte b) (str_lit_of_bytes l)
  end.

Fixpoint bytes_of_str_lit (s : str_lit) : list Byte.byte :=
  match s with
  | SNil => []
  | SCons c s => byte_of_ascii c :: bytes_of_str_lit s
  end.

Declare Scope str_scope.
Delimit Scope str_scope with str.
#[warnings="-via-type-remapping,-via-type-mismatch"]
String Notation str str_lit_of_bytes bytes_of_str_lit
  (via str_lit mapping [[nil] => SNil, [cons] => SCons]) : str_scope.
Bind Scope str_scope with str.

Definition ord (c : ascii) : N := N_of_ascii c.

Definition in_range (lo hi : N) (c : ascii) : bool :=
  ((lo <=? ord c) && (ord c <=? hi))%N.

(** [str.isspace] on one ASCII character: TAB, LF, VT, FF, CR, the four
    separators FS, GS, RS, US and the space. *)
Definition isspace (c : ascii) : bool := in_range 9 13 c || in_range 28 32 c.

Definition isupper (c : ascii) : bool := in_range 65 90 c.
Definition islower (c : ascii) : bool := in_range 97 122 c.
Definition isdigit (c : ascii) : bool := in_range 48 57 c.

Definition lower_char (c : ascii) : ascii :=
  if isupper c then ascii_of_N (ord c + 32) else c.

(** [s.lower()] *)
Definition lower (s : str) : str := map lower_char s.

(** Truth value of a string: [if s], [s or d]. *)
Definition truthy (s : str) : bool :=
  match s with [] => false | _ :: _ => true end.

Definition or_else (s d : str) : str := if truthy s then s else d.

Definition str_eqb (a b : str) : bool :=
  if list_eq_dec ascii_dec a b then true else false.

Fixpoint drop_while (p : ascii -> bool) (s : str) : str :=
  match s with
  | [] => []
  | c :: t => if p c then drop_while p t else s
  end.

Fixpoint take_while (p : ascii -> bool) (s : str) : str :=
  match s with
  | [] => []
  | c :: t => if p c then c :: take_while p t else []
  end.

(** Both ends trimmed of the characters satisfying [p]. *)
Definition strip_with (p : ascii -> bool) (s : str) : str :=
  rev (drop_while p (rev (drop_while p s))).

(** [s.strip()] *)
Definition strip (s : str) : str := strip_with isspace s.

Definition mem_char (chars : str) (c : ascii) : bool :=
  existsb (Ascii.eqb c) chars.

(** [s.strip(chars)] *)
Definition strip_chars (chars : str) (s : str) : str :=
  strip_with (mem_char chars) s.

(** [s.replace(old, new)] for one-character [old] and [new]. *)
Definition replace_char (old new : ascii) (s : str) : str :=
  map (fun c => if Ascii.eqb c old then new else c) s.

(** [s.startswith(p)] *)
Fixpoint startswith (s p : str) : bool :=
  match p, s with
  | [], _ => true
  | _ :: _, [] => false
  | a :: p', b :: s' => Ascii.eqb a b && startswith s' p'
  end.

(** [p in s] for strings: [p] occurs in [s] as a substring. *)
Fixpoint contains (s p : str) : bool :=
  startswith s p || match s with [] => false | _ :: t => contains t p end.

(** [s.split(sep, 1)] for a one-character [sep]: the text before the first
    [sep] and, when there is one, the text after it. *)
Fixpoint split1 (sep : ascii) (s : str) : str * option str :=
  match s with
  | [] => ([], None)
  | c :: t =>
      if Ascii.eqb c sep then ([], Some t)
      else let (a, b) := split1 sep t in (c :: a, b)
  end.

(** [s.split(sep)] for a one-character [sep]. *)
Fixpoint split_on (sep : ascii) (s : str) : list str :=
  match s with
  | [] => [[]]
  | c :: t =>
      if Ascii.eqb c sep then [] :: split_on sep t
      else match split_on sep t with
           | [] => [[c]]
           | w :: ws => (c :: w) :: ws
           end
  end.

(** [s.split()]: the maximal runs of non-space characters. *)
Fixpoint words_from (cur : str) (s : str) : list str :=
  match s with
  | [] => match cur with [] => [] | _ => [rev cur] end
  | c :: t =>
      if isspace c
      then match cur with [] => words_from [] t | _ => rev cur :: words_from [] t end
      else words_from (c :: cur) t
  end.

Definition split_ws (s : str) : list str := words_from [] s.

(** [sep.join(parts)] *)
Fixpoint join (sep : str) (parts : list str) : str :=
  match parts with
  | [] => []
  | [x] => x
  | x :: rest => x ++ sep ++ join sep rest
  end.

(** The line boundaries of [str.splitlines] among ASCII characters:
    LF, VT, FF, CR, FS, GS, RS; CR LF counts as one boundary. *)
Definition is_linebreak (c : ascii) : bool := in_range 10 13 c || in_range 28 30 c.

Definition is_cr (c : ascii) : bool := (ord c =? 13)%N.
Definition is_lf (c : ascii) : bool := (ord c =? 10)%N.

Fixpoint lines_from (cur : str) (s : str) : list str :=
  match s with
  | [] => match cur with [] => [] | _ => [rev cur] end
  | c :: t =>
      if is_linebreak c then
        match t with
        | d :: t' =>
            if is_cr c && is_lf d then rev cur :: lines_from [] t'
            else rev cur :: lines_from [] t
        | [] => [rev cur]
        end
      else lines_from (c :: cur) t
  end.

(** [s.splitlines()] *)
Definition splitlines (s : str) : list str := lines_from [] s.

(** [re.sub(cls+, repl, s)] for a character class [cls]: every maximal run
    of characters of the class is replaced by one [repl].  [in_run] tells
    that the previous character was already part of the current match. *)
Fixpoint sub_runs (cls : ascii -> bool) (repl : str) (in_run : bool) (s : str) : str :=
  match s with
  | [] => []
  | c :: t =>
      if cls c
      then (if in_run then [] else repl) ++ sub_runs cls repl true t
      else c :: sub_runs cls repl false t
  end.

Definition re_sub_plus (cls : ascii -> bool) (repl s : str) : str :=
  sub_runs cls repl false s.

End PyStr.
Import PyStr.
#[local] Open Scope str_scope.
#[local] Open Scope bool_scope.

(* ===================================================================== *)
(** * UI helpers: [slugify] *)
(* ===================================================================== *)

(** The complement of the class of [_slug_re = [^a-zA-Z0-9\-_.]+]. *)
Definition slug_char (c : ascii) : bool :=
  islower c || isupper c || isdigit c || mem_char "-_." c.

Definition is_hyphen (c : ascii) : bool := Ascii.eqb c "-".

Definition slugify (text : str) : str :=
  let text := replace_char " " "-" (lower (strip text)) in
  let text := re_sub_plus (fun c => negb (slug_char c)) "-" text in
  let text := re_sub_plus is_hyphen "-" text in
  or_else (strip_chars "-._" text) "index".

(* ===================================================================== *)
(** * What the program imports *)
(* ===================================================================== *)

(** The six fields of [urllib.parse.ParseResult]. *)
Record ParseResult := {
  scheme : str;
  netloc : str;
  path : str;
  params : str;
  query : str;
  fragment : str
}.

(** [urllib.parse]: the three functions [app.py] calls. *)
Class UrlLib := {
  urlparse : str -> ParseResult;
  urldefrag : str -> str * str;
  urljoin : str -> str -> str
}.

(** A parsed document: tags with their attribute dictionary and contents,
    text ([NavigableString]), and comments, which are strings that
    [get_text] leaves out. *)
#[warnings="-register-all"]
Inductive node :=
| Tag (name : str) (attrs : list (str * str)) (contents : list node)
| NavigableString (s : str)
| Comment (s : str).

(** Induction on a document tree, the children of an element included. *)
Section NodeInduction.

Variable P : node -> Prop.
Hypothesis on_tag : forall name attrs cs, Forall P cs -> P (Tag name attrs cs).
Hypothesis on_text : forall s, P (NavigableString s).
Hypothesis on_comment : forall s, P (Comment s).

Fixpoint node_induction (n : node) : P n :=
  match n with
  | Tag name attrs cs =>
      on_tag name attrs cs
        ((fix all (l : list node) : Forall P l :=
            match l with
            | [] => Forall_nil P
            | c :: l' => Forall_cons c (node_induction c) (all l')
            end) cs)
  | NavigableString s => on_text s
  | Comment s => on_comment s
  end.

End NodeInduction.

(** [BeautifulSoup(html, 'html.parser')] gives the top-level contents of the
    document object; [decode] is [str(tag)]. *)
Class HtmlLib := {
  BeautifulSoup : str -> list node;
  decode : node -> str
}.

(** One [client.get] of httpx. *)
Record request := {
  req_url : str;
  req_timeout : Z;
  req_follow_redirects : bool
}.

(** Its outcome: an exception, or a response with its status code, its
    [content-type] header if any, its text and its final URL. *)
Inductive http_result :=
| Raised
| Response (status_code : Z) (content_type : option str) (text : str) (url : str).

(** The [markdown] attribute of a Crawl4AI result: absent, a string, or an
    object whose attributes [fit_markdown], [raw_markdown], [markdown] may
    each hold text. *)
Inductive markdown_value :=
| MdMissing
| MdStr (s : str)
| MdObject (fit_markdown raw_markdown markdown : option str).

(** What the crawl does to the outside, in order. *)
Inductive event :=
| EvGet (r : request)
| EvRun (url : str)
| EvWrite (file : str) (content : str).

(** The outside world: each answer may depend on everything done so far.
    [fallback_md] is [markdownify] when it is installed; it may raise. *)
Class World := {
  http_get : list event -> request -> http_result;
  arun : list event -> str -> markdown_value;
  fallback_md : option (str -> option str)
}.

(* ===================================================================== *)
(** * Configuration and records *)
(* ===================================================================== *)

Record JobConfig := {
  cfg_seeds : list str;
  cfg_same_domain : bool;
  cfg_path_prefix : option str;
  cfg_max_pages : Z;
  cfg_output_dir : str;
  cfg_make_zip : bool;
  cfg_obey_robots : bool;
  cfg_include_fragments : bool
}.

Record PageRecord := {
  pr_url : str;
  pr_filepath : str;
  pr_title : str;
  pr_description : str
}.

(** A Python [set] of strings, kept without duplicates. *)
Definition str_set := list str.

Fixpoint set_mem (x : str) (s : str_set) : bool :=
  match s with
  | [] => false
  | y :: s' => str_eqb x y || set_mem x s'
  end.

Definition set_add (x : str) (s : str_set) : str_set :=
  if set_mem x s then s else s ++ [x].

(** A Python [dict] keyed by strings. *)
Fixpoint dict_get {V} (k : str) (d : list (str * V)) : option V :=
  match d with
  | [] => None
  | (k', v) :: d' => if str_eqb k k' then Some v else dict_get k d'
  end.

Fixpoint dict_set {V} (k : str) (v : V) (d : list (str * V)) : list (str * V) :=
  match d with
  | [] => [(k, v)]
  | (k', v') :: d' => if str_eqb k k' then (k, v) :: d' else (k', v') :: dict_set k v d'
  end.

(* ===================================================================== *)
(** * robots.txt *)
(* ===================================================================== *)

(** [line.split(':', 1)[1]]; the program indexes only lines that start with
    a field name and its colon. *)
Definition after_colon (line : str) : str :=
  match snd (split1 ":" line) with
  | Some rest => rest
  | None => []
  end.

(** One turn of the loop over the lines: the pair is [(ua_star, disallows)]. *)
Definition robots_line (acc : bool * str_set) (line : str) : bool * str_set :=
  let (ua_star, disallows) := acc in
  let line := strip line in
  if negb (truthy line) || startswith line "#" then acc
  else if startswith (lower line) "user-agent:" then
    (str_eqb (strip (after_colon line)) "*", disallows)
  else if ua_star && startswith (lower line) "disallow:" then
    let path := strip (after_colon line) in
    if truthy path then (ua_star, set_add path disallows) else acc
  else acc.

Definition parse_robots (text : str) : str_set :=
  snd (fold_left robots_line (splitlines text) (false, [])).

Definition robots_url `{UrlLib} (base_url : str) : str :=
  let parsed := urlparse base_url in
  scheme parsed ++ "://" ++ netloc parsed ++ "/robots.txt".

Definition robots_request `{UrlLib} (base_url : str) : request :=
  {| req_url := robots_url base_url; req_timeout := 15; req_follow_redirects := false |}.

(** The body of [fetch_robots_disallows] after the request was answered. *)
Definition robots_of_response (r : http_result) : option str_set :=
  match r with
  | Raised => None
  | Response status _ text _ =>
      if negb (status =? 200)%Z then None else Some (parse_robots text)
  end.

Definition allowed_by_robots `{UrlLib} (url : str) (disallows : option str_set) : bool :=
  match disallows with
  | None => true
  | Some [] => true
  | Some ds =>
      let path := or_else (path (urlparse url)) "/" in
      negb (existsb (fun prefix => startswith path prefix) ds)
  end.

(* ===================================================================== *)
(** * Scope and links *)
(* ===================================================================== *)

Definition same_domain `{UrlLib} (a b : str) : bool :=
  str_eqb (lower (netloc (urlparse a))) (lower (netloc (urlparse b))).

Definition under_prefix `{UrlLib} (url : str) (prefix : option str) : bool :=
  match prefix with
  | None => true
  | Some [] => true
  | Some p => startswith (or_else (path (urlparse url)) "/") p
  end.

(** The same-domain test as [acrawl] writes it, for a popped URL and for a
    discovered link: [cfg.same_domain and not any(same_domain(u, s) ...)]
    rejects. *)
Definition domain_ok `{UrlLib} (cfg : JobConfig) (u : str) : bool :=
  negb (cfg_same_domain cfg && negb (existsb (same_domain u) (cfg_seeds cfg))).

Definition get_attr (key : str) (attrs : list (str * str)) : option str :=
  dict_get key attrs.

(** An element followed by all its descendants, in document order. *)
Fixpoint self_and_descendants (n : node) : list node :=
  n :: match n with
       | Tag _ _ cs => flat_map self_and_descendants cs
       | _ => []
       end.

Definition descendants (contents : list node) : list node :=
  flat_map self_and_descendants contents.

Definition is_tag_named (nm : str) (n : node) : bool :=
  match n with
  | Tag name _ _ => str_eqb name nm
  | _ => false
  end.

Definition has_attr_value (key value : str) (n : node) : bool :=
  match n with
  | Tag _ attrs _ =>
      match get_attr key attrs with
      | Some v => str_eqb v value
      | None => false
      end
  | _ => false
  end.

(** [soup.find(name)] *)
Definition find_tag (nm : str) (soup : list node) : option node :=
  find (is_tag_named nm) (descendants soup).

(** The [href] of an [a] element that passes the two scheme tests, joined
    to the base URL. *)
Definition link_of `{UrlLib} (base_url : str) (n : node) : list str :=
  match n with
  | Tag name attrs _ =>
      if str_eqb name "a" then
        match get_attr "href" attrs with
        | Some h =>
            let href := strip h in
            if startswith href "javascript:" || startswith href "mailto:" then []
            else [urljoin base_url href]
        | None => []
        end
      else []
  | _ => []
  end.

Definition extract_links `{UrlLib} `{HtmlLib} (base_url html : str) : list str :=
  flat_map (link_of base_url) (descendants (BeautifulSoup html)).

(* ===================================================================== *)
(** * Content and file names *)
(* ===================================================================== *)

(** [os.path.join] on a POSIX system. *)
Definition endswith_slash (s : str) : bool :=
  match rev s with
  | c :: _ => Ascii.eqb c "/"
  | [] => false
  end.

Definition path_join2 (a b : str) : str :=
  if startswith b "/" then b
  else if negb (truthy a) || endswith_slash a then a ++ b
  else a ++ "/" ++ b.

Definition os_path_join (a : str) (ps : list str) : str :=
  fold_left path_join2 ps a.

(** [path_for_url]: the file path and the stem.  (The call also creates the
    directory of the file, which nothing below observes.) *)
Definition path_for_url `{UrlLib} (url base_dir : str) : str * str :=
  let (url_no_frag, frag) := urldefrag url in
  let parsed := urlparse url_no_frag in
  let segs := filter truthy (split_on "/" (or_else (path parsed) "/")) in
  let segs := match segs with [] => ["index"] | _ => segs end in
  let base := or_else (last segs []) "index" in
  let stem := slugify base in
  let stem := if truthy frag then stem ++ "__" ++ slugify frag else stem in
  let folders := if (1 <? length segs)%nat then removelast segs else ["root"] in
  let out_dir := os_path_join base_dir (map slugify folders) in
  (os_path_join out_dir [stem ++ ".md"], stem).

(** The [.string] of an element: its only child if that is text, or the
    [.string] of its only child. *)
Fixpoint node_string (n : node) : option str :=
  match n with
  | Tag _ _ [c] => node_string c
  | Tag _ _ _ => None
  | NavigableString s => Some s
  | Comment s => Some s
  end.

(** The pieces [get_text(sep, strip=True)] joins: the text descendants,
    stripped, the empty ones left out; comments are no text. *)
Definition stripped_strings (contents : list node) : list str :=
  flat_map (fun n => match n with
                     | NavigableString s =>
                         let s := strip s in if truthy s then [s] else []
                     | _ => []
                     end)
           (descendants contents).

Definition get_text_strip (sep : str) (contents : list node) : str :=
  join sep (stripped_strings contents).

Definition contents_of (n : node) : list node :=
  match n with
  | Tag _ _ cs => cs
  | _ => []
  end.

Definition title_of_soup (soup : list node) : str :=
  match find_tag "title" soup with
  | Some t =>
      match node_string t with
      | Some s => if truthy s then strip s else "Untitled"
      | None => "Untitled"
      end
  | None => "Untitled"
  end.

Definition desc_of_soup (soup : list node) : str :=
  match find_tag "p" soup with
  | Some p => firstn 280 (join " " (split_ws (get_text_strip " " (contents_of p))))
  | None => ""
  end.

Definition title_and_desc_from_html `{HtmlLib} (html : str) : str * str :=
  let soup := BeautifulSoup html in
  (title_of_soup soup, desc_of_soup soup).

(** ** The fragment slicer *)

(** An element together with its [next_siblings]. *)
Definition crumb := (node * list node)%type.

(** [locate p n after] searches [n] and then its descendants, in document
    order, for the first element satisfying [p]; the answer lists that
    element, its parent, its grandparent, ... up to [n], each with its
    following siblings. *)
Fixpoint locate (p : node -> bool) (n : node) (after : list node) : option (list crumb) :=
  if p n then Some [(n, after)]
  else match n with
       | Tag _ _ cs =>
           match (fix scan (l : list node) : option (list crumb) :=
                    match l with
                    | [] => None
                    | c :: l' =>
                        match locate p c l' with
                        | Some ch => Some ch
                        | None => scan l'
                        end
                    end) cs with
           | Some ch => Some (ch ++ [(n, after)])
           | None => None
           end
       | _ => None
       end.

Fixpoint locate_in (p : node -> bool) (l : list node) : option (list crumb) :=
  match l with
  | [] => None
  | c :: l' =>
      match locate p c l' with
      | Some ch => Some ch
      | None => locate_in p l'
      end
  end.

Definition heading_tags : list str := ["h1"; "h2"; "h3"; "h4"; "h5"; "h6"].

Definition node_name (n : node) : option str :=
  match n with
  | Tag name _ _ => Some name
  | _ => None
  end.

Definition is_heading (n : node) : bool :=
  match node_name n with
  | Some name => existsb (str_eqb name) heading_tags
  | None => false
  end.

(** [s.isdigit()] *)
Definition str_isdigit (s : str) : bool := truthy s && forallb isdigit s.

(** [int(name[1])] for a digit. *)
Definition int_of_digit (c : ascii) : Z := Z.of_N (ord c) - 48.

(** [int(start.name[1]) if start.name and start.name.startswith('h')
     and start.name[1:].isdigit() else 6] *)
Definition level_of_name (name : str) : Z :=
  if truthy name && startswith name "h" && str_isdigit (skipn 1 name)
  then int_of_digit (nth 1 name "0"%char)
  else 6.

Definition level_of (n : node) : Z :=
  match node_name n with
  | Some name => level_of_name name
  | None => 6
  end.

(** The walk [while start and start.name not in heading_tags:
    start = start.parent] along the chain of ancestors. *)
Fixpoint nearest_heading (chain : list crumb) : option crumb :=
  match chain with
  | [] => None
  | c :: up => if is_heading (fst c) then Some c else nearest_heading up
  end.

(** The test that ends the loop over [start.next_siblings]. *)
Definition closes_section (level : Z) (sib : node) : bool :=
  is_heading sib &&
  match node_name sib with
  | Some name => (int_of_digit (nth 1 name "0"%char) <=? level)%Z
  | None => false
  end.

Fixpoint take_until (stop : node -> bool) (l : list node) : list node :=
  match l with
  | [] => []
  | x :: l' => if stop x then [] else x :: take_until stop l'
  end.

(** [c if isinstance(c, Tag) else NavigableString(str(c))] *)
Definition as_child (c : node) : node :=
  match c with
  | Tag _ _ _ => c
  | NavigableString s => NavigableString s
  | Comment s => NavigableString s
  end.

(** [soup.find(id=fragment) or soup.find(attrs={'name': fragment})], with
    the ancestors of the element found. *)
Definition locate_fragment (soup : list node) (fragment : str) : option (list crumb) :=
  match locate_in (has_attr_value "id" fragment) soup with
  | Some ch => Some ch
  | None => locate_in (has_attr_value "name" fragment) soup
  end.

(** The section root [start] with its following siblings: the nearest
    heading, or else the element found. *)
Definition section_start (soup : list node) (fragment : str) : option crumb :=
  match locate_fragment soup fragment with
  | None => None
  | Some chain =>
      match nearest_heading chain with
      | Some start => Some start
      | None => hd_error chain
      end
  end.

(** The nodes put into the container. *)
Definition collected_for (start : crumb) : list node :=
  fst start :: take_until (closes_section (level_of (fst start))) (snd start).

(** The container [slice_fragment_section] builds, before [str()]. *)
Definition slice_soup (soup : list node) (fragment : str) : option node :=
  if negb (truthy fragment) then None
  else match section_start soup fragment with
       | None => None
       | Some start => Some (Tag "div" [] (map as_child (collected_for start)))
       end.

Definition slice_fragment_section `{HtmlLib} (html fragment : str) : option str :=
  if negb (truthy fragment) then None
  else option_map decode (slice_soup (BeautifulSoup html) fragment).

(* ===================================================================== *)
(** * Markdown fallback and network helpers *)
(* ===================================================================== *)

Definition md_fallback `{HtmlLib} `{World} (html : str) : str :=
  let plain := get_text_strip "" (BeautifulSoup html) in
  match fallback_md with
  | Some markdownify =>
      match markdownify html with
      | Some md => md
      | None => plain
      end
  | None => plain
  end.

Definition html_request (url : str) : request :=
  {| req_url := url; req_timeout := 25; req_follow_redirects := true |}.

(** The body of [fetch_html] after the request was answered. *)
Definition html_of_response (r : http_result) : option str * option str :=
  match r with
  | Raised => (None, None)
  | Response status ct text final =>
      if negb (status =? 200)%Z then (None, None)
      else
        let ct := lower (match ct with Some c => c | None => "" end) in
        if negb (contains ct "text/html") && negb (contains ct "application/xhtml+xml")
        then (None, None)
        else (Some text, Some final)
  end.

(* ===================================================================== *)
(** * The crawl core *)
(* ===================================================================== *)

(** The variables of [acrawl]: the frontier [q], the [visited] set, the
    [records], the counter [processed], the robots cache, and the trace of
    what was done to the outside so far. *)
Record crawl_state := {
  q : list str;
  visited : str_set;
  records : list PageRecord;
  processed : Z;
  robots_cache : list (str * option str_set);
  trace : list event
}.

Definition set_q (v : list str) (st : crawl_state) : crawl_state :=
  {| q := v; visited := visited st; records := records st;
     processed := processed st; robots_cache := robots_cache st; trace := trace st |}.

Definition set_visited (v : str_set) (st : crawl_state) : crawl_state :=
  {| q := q st; visited := v; records := records st;
     processed := processed st; robots_cache := robots_cache st; trace := trace st |}.

Definition set_records (v : list PageRecord) (st : crawl_state) : crawl_state :=
  {| q := q st; visited := visited st; records := v;
     processed := processed st; robots_cache := robots_cache st; trace := trace st |}.

Definition set_processed (v : Z) (st : crawl_state) : crawl_state :=
  {| q := q st; visited := visited st; records := records st;
     processed := v; robots_cache := robots_cache st; trace := trace st |}.

Definition set_robots_cache (v : list (str * option str_set)) (st : crawl_state) : crawl_state :=
  {| q := q st; visited := visited st; records := records st;
     processed := processed st; robots_cache := v; trace := trace st |}.

Definition emit (e : event) (st : crawl_state) : crawl_state :=
  {| q := q st; visited := visited st; records := records st;
     processed := processed st; robots_cache := robots_cache st;
     trace := trace st ++ [e] |}.

Section Crawl.

Context {U : UrlLib} {H : HtmlLib} {W : World}.
Variable cfg : JobConfig.

(** [fetch_robots_disallows(base_url)]: one request, then the reading of
    its answer. *)
Definition fetch_robots_disallows (base_url : str) (st : crawl_state)
  : option str_set * crawl_state :=
  let r := robots_request base_url in
  (robots_of_response (http_get (trace st) r), emit (EvGet r) st).

(** [fetch_html(url)] *)
Definition fetch_html (url : str) (st : crawl_state)
  : (option str * option str) * crawl_state :=
  let r := html_request url in
  (html_of_response (http_get (trace st) r), emit (EvGet r) st).

(** The closure [allowed] with its cache. *)
Definition allowed (u : str) (st : crawl_state) : bool * crawl_state :=
  if negb (cfg_obey_robots cfg) then (true, st)
  else
    let host := netloc (urlparse u) in
    let st :=
      match dict_get host (robots_cache st) with
      | Some _ => st
      | None =>
          let (d, st) := fetch_robots_disallows u st in
          set_robots_cache (dict_set host d (robots_cache st)) st
      end in
    let cached := match dict_get host (robots_cache st) with
                  | Some d => d
                  | None => None
                  end in
    (allowed_by_robots u cached, st).

(** "Pull markdown robustly across versions." *)
Definition pull_markdown (result : markdown_value) : option str :=
  match result with
  | MdMissing => None
  | MdStr mk => Some mk
  | MdObject fit raw md =>
      find truthy (flat_map (fun a => match a with Some s => [s] | None => [] end)
                            [fit; raw; md])
  end.

(** "Discover links from full HTML": the links appended to the frontier. *)
Definition discovered (vis : str_set) (final_url html : str) : list str :=
  flat_map (fun link =>
              let (ln, _) := urldefrag link in
              if set_mem ln vis then []
              else if negb (domain_ok cfg ln) then []
              else if negb (under_prefix ln (cfg_path_prefix cfg)) then []
              else [ln])
           (extract_links final_url html).

(** The part of the loop body after a successful fetch: render, slice,
    persist, record, count, discover. *)
Definition export_page (raw url_no_frag frag html final_url : str) (st : crawl_state)
  : crawl_state :=
  let result := arun (trace st) url_no_frag in
  let st := emit (EvRun url_no_frag) st in
  let md_text := match pull_markdown result with
                 | Some s => if truthy s then s else md_fallback html
                 | None => md_fallback html
                 end in
  let md_text :=
    if cfg_include_fragments cfg && truthy frag then
      match slice_fragment_section html frag with
      | Some section_html =>
          if truthy section_html then md_fallback section_html else md_text
      | None => md_text
      end
    else md_text in
  let (title, desc) := title_and_desc_from_html html in
  let (out_path, _) := path_for_url raw (cfg_output_dir cfg) in
  let st := emit (EvWrite out_path ("# " ++ title ++ "> Source: " ++ raw ++ md_text)) st in
  let st := set_records (records st ++
              [{| pr_url := raw; pr_filepath := out_path;
                  pr_title := title; pr_description := desc |}]) st in
  let st := set_processed (processed st + 1) st in
  set_q (q st ++ discovered (visited st) final_url html) st.

(** One turn of [while q and processed < cfg.max_pages]; every early
    return below is a [continue]. *)
Definition loop_body (st : crawl_state) : crawl_state :=
  match q st with
  | [] => st
  | popped :: rest =>
      let st := set_q rest st in
      let raw := strip popped in
      if negb (truthy raw) then st
      else
        let (url_no_frag, frag) := urldefrag raw in
        if set_mem url_no_frag (visited st) then st
        else
          let st := set_visited (set_add url_no_frag (visited st)) st in
          if negb (domain_ok cfg url_no_frag) then st
          else if negb (under_prefix url_no_frag (cfg_path_prefix cfg)) then st
          else
            let (ok, st) := allowed url_no_frag st in
            if negb ok then st
            else
              let (fetched, st) := fetch_html url_no_frag st in
              match fetched with
              | (Some html, Some final_url) =>
                  if negb (truthy html) then st
                  else export_page raw url_no_frag frag html final_url st
              | _ => st
              end
  end.

Definition loop_cond (st : crawl_state) : bool :=
  match q st with [] => false | _ :: _ => true end
  && (processed st <? cfg_max_pages cfg)%Z.

(** What [allowed] and [fetch_html] leave alone. *)
Definition same_frontier (st st' : crawl_state) : Prop :=
  q st' = q st /\ visited st' = visited st /\
  records st' = records st /\ processed st' = processed st.

Lemma allowed_frame (u : str) (st : crawl_state) :
  same_frontier st (snd (allowed u st)).
Proof.
  unfold allowed, same_frontier.
  destruct (cfg_obey_robots cfg); simpl; [ | tauto ].
  destruct (dict_get _ (robots_cache st)); simpl; tauto.
Qed.

Lemma fetch_html_frame (u : str) (st : crawl_state) :
  same_frontier st (snd (fetch_html u st)).
Proof. unfold fetch_html, same_frontier; simpl; tauto. Qed.

(** A turn either drops the head of the frontier and changes neither the
    counter nor the records, or exports one page: one more record, the
    counter one higher, the discovered links behind the rest. *)
Definition skips (st st' : crawl_state) (rest : list str) : Prop :=
  q st' = rest /\ processed st' = processed st /\ records st' = records st.

Definition exports (st st' : crawl_state) (rest : list str) : Prop :=
  processed st' = (processed st + 1)%Z /\
  (exists links, q st' = rest ++ links) /\
  (exists r, records st' = records st ++ [r]).

Lemma loop_body_cases (st : crawl_state) (popped : str) (rest : list str) :
  q st = popped :: rest ->
  skips st (loop_body st) rest \/ exports st (loop_body st) rest.
Proof.
  intros Hq. unfold loop_body. rewrite Hq.
  assert (Hskip : forall st',
             q st' = rest /\ records st' = records st /\ processed st' = processed st ->
             skips st st' rest).
  { intros st' (A & B & C); repeat split; congruence. }
  assert (Hnow : forall v, skips st (set_visited v (set_q rest st)) rest).
  { intros v. apply Hskip. simpl. tauto. }
  destruct (truthy (strip popped)); cbn [negb];
    [ | left; apply Hskip; simpl; tauto ].
  destruct (urldefrag (strip popped)) as [url_no_frag frag].
  destruct (set_mem url_no_frag _); [ left; apply Hskip; simpl; tauto | ].
  cbn [visited set_q].
  destruct (domain_ok cfg url_no_frag); cbn [negb]; [ | left; apply Hnow ].
  destruct (under_prefix url_no_frag _); cbn [negb]; [ | left; apply Hnow ].
  match goal with |- context [allowed ?u ?s] =>
    pose proof (allowed_frame u s) as Fa; destruct (allowed u s) as [ok st1] end.
  destruct Fa as (Fq & Fv & Fr & Fp). cbn in Fq, Fv, Fr, Fp.
  destruct ok; cbn [negb]; [ | left; apply Hskip; repeat split; congruence ].
  match goal with |- context [fetch_html ?u ?s] =>
    pose proof (fetch_html_frame u s) as Ff; destruct (fetch_html u s) as [fetched st2] end.
  destruct Ff as (Gq & Gv & Gr & Gp). cbn in Gq, Gv, Gr, Gp.
  assert (Hst2 : skips st st2 rest).
  { apply Hskip. repeat split; congruence. }
  destruct fetched as [[html|] [final_url|]]; try (left; exact Hst2).
  destruct (truthy html); cbn [negb]; [ | left; exact Hst2 ].
  right. unfold export_page.
  destruct (title_and_desc_from_html html) as [title desc].
  destruct (path_for_url (strip popped) (cfg_output_dir cfg)) as [out_path stem].
  unfold exports; simpl. repeat split.
  - congruence.
  - eexists. rewrite Gq, Fq. reflexivity.
  - eexists. rewrite Gr, Fr. reflexivity.
Qed.

(** ** The loop

    The loop ends: a turn either raises [processed], which [max_pages]
    bounds, or shortens the frontier. *)
Definition weight (st : crawl_state) : nat * nat :=
  (Z.to_nat (cfg_max_pages cfg - processed st), length (q st)).

Definition weight_lt : relation (nat * nat) :=
  fun a b => (fst a < fst b)%nat \/ (fst a = fst b /\ (snd a < snd b)%nat).

Lemma weight_lt_wf : well_founded weight_lt.
Proof.
  intros [a b]. revert b.
  induction a as [a IHa] using (well_founded_induction lt_wf).
  induction b as [b IHb] using (well_founded_induction lt_wf).
  constructor. intros [a' b'] [Hlt | [Heq Hlt]]; simpl in *.
  - apply IHa. exact Hlt.
  - subst a'. apply IHb. exact Hlt.
Qed.

Lemma loop_body_decreases (st : crawl_state) :
  loop_cond st = true -> weight_lt (weight (loop_body st)) (weight st).
Proof.
  unfold loop_cond. intros Hc. apply andb_true_iff in Hc. destruct Hc as [Hq Hp].
  apply Z.ltb_lt in Hp.
  destruct (q st) as [ | popped rest] eqn:Eq; [ discriminate | ].
  unfold weight, weight_lt. rewrite Eq. simpl.
  destruct (loop_body_cases st popped rest Eq) as [(A & B & _) | (A & [links B] & _)].
  - right. rewrite A, B. split; [reflexivity | lia].
  - left. rewrite A. lia.
Qed.

Definition inspect {A} (a : A) : {b : A | a = b} := exist _ a eq_refl.

(** One unfolding of the [while]: test, then the body and the loop again. *)
Definition loop_step (st : crawl_state)
    (again : forall st', weight_lt (weight st') (weight st) -> crawl_state)
  : crawl_state :=
  match inspect (loop_cond st) with
  | exist _ true Hc => again (loop_body st) (loop_body_decreases st Hc)
  | exist _ false _ => st
  end.

Definition acrawl_loop : crawl_state -> crawl_state :=
  Fix (wf_inverse_image crawl_state (nat * nat) weight_lt weight weight_lt_wf)
      (fun _ => crawl_state) loop_step.

(** The state [acrawl] starts its loop in. *)
Definition initial_state : crawl_state :=
  {| q := cfg_seeds cfg; visited := []; records := []; processed := 0;
     robots_cache := []; trace := [] |}.

Definition final_state : crawl_state := acrawl_loop initial_state.

(** [acrawl(cfg)]: the records it returns.  (The index files and the ZIP
    written after the loop are not part of the model.) *)
Definition acrawl : list PageRecord := records final_state.

(** The loop run for at most [n] turns, for computing on examples. *)
Fixpoint turns (n : nat) (st : crawl_state) : crawl_state :=
  match n with
  | O => st
  | S n' => if loop_cond st then turns n' (loop_body st) else st
  end.

End Crawl.

(* ===================================================================== *)
(** * The wizard and the main program *)
(* ===================================================================== *)

(** What the user answers at the prompts of [wizard], in the order asked.
    [Prompt.ask] has already put the default in place of an empty line. *)
Record answers := {
  ans_seeds : str;
  ans_same_domain : bool;
  ans_path_prefix : str;
  ans_max_pages : str;
  ans_output_dir : str;
  ans_make_zip : bool;
  ans_obey_robots : bool;
  ans_include_fragments : bool;
  ans_start : bool
}.

Section Wizard.

(** The built-in [int] on strings; [None] stands for the exception. *)
Variable int : str -> option Z.

(** [max(1, int(max_pages_str))], 200 on any exception. *)
Definition max_pages_of (a : answers) : Z :=
  match int (ans_max_pages a) with
  | Some n => Z.max 1 n
  | None => 200
  end.

(** [[s.strip() for s in seeds_in.split(',') if s.strip()]] *)
Definition seeds_of (a : answers) : list str :=
  flat_map (fun s => if truthy (strip s) then [strip s] else [])
           (split_on "," (ans_seeds a)).

(** [wizard()]: the configuration, or [None] for [SystemExit] when the
    user does not confirm the start. *)
Definition wizard (a : answers) : option JobConfig :=
  let cfg := {| cfg_seeds := seeds_of a;
                cfg_same_domain := ans_same_domain a;
                cfg_path_prefix := if truthy (ans_path_prefix a)
                                   then Some (ans_path_prefix a) else None;
                cfg_max_pages := max_pages_of a;
                cfg_output_dir := ans_output_dir a;
                cfg_make_zip := ans_make_zip a;
                cfg_obey_robots := ans_obey_robots a;
                cfg_include_fragments := ans_include_fragments a |} in
  if negb (ans_start a) then None else Some cfg.

(** The main program once Crawl4AI is found importable: the wizard, then
    the crawl; [None] when the wizard exits. *)
Definition main {U : UrlLib} {H : HtmlLib} {W : World} (a : answers)
  : option (list PageRecord) :=
  match wizard a with
  | Some cfg => Some (acrawl cfg)
  | None => None
  end.

End Wizard.

(* ===================================================================== *)
(** * A model of [urllib.parse] for the worked examples *)
(* ===================================================================== *)

(** The theorems below hold for every [UrlLib].  The examples need one that
    computes: this module follows CPython's [urlsplit], [urlparse],
    [urlunparse], [urldefrag] and [urljoin] on text inputs, leaving out the
    errors they raise on malformed bracketed hosts. *)
Module Urllib.

Definition uses_relative : list str :=
  [""; "ftp"; "http"; "gopher"; "nntp"; "imap"; "wais"; "file"; "https";
   "shttp"; "mms"; "prospero"; "rtsp"; "rtspu"; "sftp"; "svn"; "svn+ssh";
   "ws"; "wss"].

Definition uses_netloc : list str :=
  [""; "ftp"; "http"; "gopher"; "nntp"; "telnet"; "imap"; "wais"; "file";
   "mms"; "https"; "shttp"; "snews"; "prospero"; "rtsp"; "rtspu"; "rsync";
   "svn"; "svn+ssh"; "sftp"; "nfs"; "git"; "git+ssh"; "ws"; "wss"].

Definition uses_params : list str :=
  [""; "ftp"; "hdl"; "prospero"; "http"; "imap"; "https"; "shttp"; "rtsp";
   "rtspu"; "sip"; "sips"; "mms"; "sftp"; "tel"].

Definition mem_str (x : str) (l : list str) : bool := existsb (str_eqb x) l.

Definition isalpha (c : ascii) : bool := islower c || isupper c.

Definition scheme_char (c : ascii) : bool :=
  isalpha c || isdigit c || mem_char "+-." c.

(** Leading C0 controls and spaces are dropped, and TAB, CR, LF removed. *)
Definition clean (url : str) : str :=
  filter (fun c => negb (mem_char [ascii_of_N 9; ascii_of_N 10; ascii_of_N 13] c))
         (drop_while (in_range 0 32) url).

Definition split_scheme (url : str) : str * str :=
  match split1 ":" url with
  | (pre, Some rest) =>
      match pre with
      | c :: _ => if isalpha c && forallb scheme_char pre then (lower pre, rest) else ([], url)
      | [] => ([], url)
      end
  | (_, None) => ([], url)
  end.

Definition split_netloc (url : str) : str * str :=
  if startswith url "//" then
    let rest := skipn 2 url in
    let inside := fun c => negb (mem_char "/?#" c) in
    (take_while inside rest, drop_while inside rest)
  else ([], url).

(** [url, x = url.split(sep, 1)] when [sep] occurs in [url]. *)
Definition cut (sep : ascii) (url : str) : str * str :=
  match split1 sep url with
  | (a, Some b) => (a, b)
  | (_, None) => (url, [])
  end.

(** [(scheme, netloc, path, query, fragment)] *)
Definition urlsplit (url : str) : str * str * str * str * str :=
  let url := clean url in
  let (scheme, url) := split_scheme url in
  let (netloc, url) := split_netloc url in
  let (url, fragment) := cut "#" url in
  let (url, query) := cut "?" url in
  (scheme, netloc, url, query, fragment).

Definition splitparams (url : str) : str * str :=
  let not_slash := fun c => negb (Ascii.eqb c "/") in
  let head := rev (drop_while not_slash (rev url)) in
  let tail := rev (take_while not_slash (rev url)) in
  match split1 ";" tail with
  | (a, Some b) => (head ++ a, b)
  | (_, None) => (url, [])
  end.

Definition urlparse (url : str) : ParseResult :=
  let '(scheme, netloc, url, query, fragment) := urlsplit url in
  let (url, params) :=
    if mem_str scheme uses_params && mem_char url ";" then splitparams url
    else (url, []) in
  {| scheme := scheme; netloc := netloc; path := url; params := params;
     query := query; fragment := fragment |}.

Definition urlunsplit (scheme netloc url query fragment : str) : str :=
  let url :=
    if truthy netloc
       || (truthy scheme && mem_str scheme uses_netloc && negb (startswith url "//"))
    then "//" ++ netloc ++ (if truthy url && negb (startswith url "/") then "/" ++ url else url)
    else url in
  let url := if truthy scheme then scheme ++ ":" ++ url else url in
  let url := if truthy query then url ++ "?" ++ query else url in
  if truthy fragment then url ++ "#" ++ fragment else url.

Definition urlunparse (p : ParseResult) : str :=
  let url := if truthy (params p) then path p ++ ";" ++ params p else path p in
  urlunsplit (scheme p) (netloc p) url (query p) (fragment p).

Definition with_fragment (f : str) (p : ParseResult) : ParseResult :=
  {| scheme := scheme p; netloc := netloc p; path := path p; params := params p;
     query := query p; fragment := f |}.

Definition urldefrag (url : str) : str * str :=
  if mem_char url "#" then
    let p := urlparse url in
    (urlunparse (with_fragment [] p), fragment p)
  else (url, []).

(** The dot segments of [urljoin]: [..] pops, [.] is skipped. *)
Fixpoint resolve (done : list str) (segments : list str) : list str :=
  match segments with
  | [] => rev done
  | seg :: more =>
      if str_eqb seg ".." then resolve (tl done) more
      else if str_eqb seg "." then resolve done more
      else resolve (seg :: done) more
  end.

(** [segments[1:-1] = filter(None, segments[1:-1])] *)
Definition squeeze_inner (segments : list str) : list str :=
  match segments with
  | [] => []
  | first :: more =>
      match rev more with
      | [] => [first]
      | lst :: inner => first :: filter truthy (rev inner) ++ [lst]
      end
  end.

Definition urljoin (base url : str) : str :=
  if negb (truthy base) then url
  else if negb (truthy url) then base
  else
    let b := urlparse base in
    let u0 := urlparse url in
    (* [urlparse(url, bscheme)]: the base scheme is the default *)
    let u_scheme := if truthy (scheme u0) then scheme u0 else scheme b in
    let u_path_params :=
      if truthy (scheme u0) then (path u0, params u0)
      else
        let '(_, _, p, _, _) := urlsplit url in
        if mem_str u_scheme uses_params && mem_char p ";" then splitparams p else (p, []) in
    let u_path := fst u_path_params in
    let u_params := snd u_path_params in
    if negb (str_eqb u_scheme (scheme b)) || negb (mem_str u_scheme uses_relative) then url
    else
      let join_with := fun nl pth prm qry =>
        urlunparse {| scheme := u_scheme; netloc := nl; path := pth; params := prm;
                      query := qry; fragment := fragment u0 |} in
      if mem_str u_scheme uses_netloc && truthy (netloc u0)
      then join_with (netloc u0) u_path u_params (query u0)
      else
        let nl := if mem_str u_scheme uses_netloc then netloc b else netloc u0 in
        if negb (truthy u_path) && negb (truthy u_params)
        then join_with nl (path b) (params b)
                       (if truthy (query u0) then query u0 else query b)
        else
          let base_parts := split_on "/" (path b) in
          let base_parts :=
            if truthy (last base_parts []) then removelast base_parts else base_parts in
          let segments :=
            if startswith u_path "/" then split_on "/" u_path
            else squeeze_inner (base_parts ++ split_on "/" u_path) in
          let resolved := resolve [] segments in
          let resolved :=
            if mem_str (last segments []) ["."; ".."] then resolved ++ [[]] else resolved in
          join_with nl (or_else (join "/" resolved) "/") u_params (query u0).

Definition model : UrlLib := Build_UrlLib urlparse urldefrag urljoin.

End Urllib.

(* ===================================================================== *)
(** * A small documentation site *)
(* ===================================================================== *)

(** The site of the design document's scenario: [/api] links to
    [/api/intro] and to [/blog/post]; there is no robots.txt.  Documents
    are given with the tree the parser builds for them. *)
Module Site.

Definition LF : ascii := ascii_of_N 10.

Definition api_url : str := "https://docs.example/api".
Definition intro_url : str := "https://docs.example/api/intro".
Definition robots_txt_url : str := "https://docs.example/robots.txt".

Definition api_html : str :=
  "<title>API</title><h2 id='install'>Install</h2><p>Run  pip.</p>" ++
  "<h3>Notes</h3><h2 id='usage'>Usage</h2>" ++
  "<a href='/api/intro'>Intro</a><a href='/blog/post'>Blog</a>".

Definition api_soup : list node :=
  [ Tag "title" [] [NavigableString "API"];
    Tag "h2" [("id", "install")] [NavigableString "Install"];
    Tag "p" [] [NavigableString "Run  pip."];
    Tag "h3" [] [NavigableString "Notes"];
    Tag "h2" [("id", "usage")] [NavigableString "Usage"];
    Tag "a" [("href", "/api/intro")] [NavigableString "Intro"];
    Tag "a" [("href", "/blog/post")] [NavigableString "Blog"] ].

Definition intro_html : str :=
  "<title>Intro</title><p>Hello</p><a href='/api'>Back</a>".

Definition intro_soup : list node :=
  [ Tag "title" [] [NavigableString "Intro"];
    Tag "p" [] [NavigableString "Hello"];
    Tag "a" [("href", "/api")] [NavigableString "Back"] ].


Definition QUOTE : ascii := ascii_of_N 34.

(** A plain serializer: attributes in double quotes, text as it is. *)
Fixpoint serialize (n : node) : str :=
  match n with
  | Tag name attrs cs =>
      "<" ++ name
      ++ concat (map (fun kv => " " ++ fst kv ++ "=" ++ [QUOTE] ++ snd kv ++ [QUOTE]) attrs)
      ++ ">" ++ concat (map serialize cs) ++ "</" ++ name ++ ">"
  | NavigableString s => s
  | Comment s => "<!--" ++ s ++ "-->"
  end.

(** The section of [api_html] under the anchor [install]. *)
Definition install_section : node :=
  Tag "div" []
    [ Tag "h2" [("id", "install")] [NavigableString "Install"];
      Tag "p" [] [NavigableString "Run  pip."];
      Tag "h3" [] [NavigableString "Notes"] ].

Definition documents : list (str * list node) :=
  [ (api_html, api_soup); (intro_html, intro_soup);
    (serialize install_section, [install_section]) ].

Definition parser : HtmlLib :=
  {| BeautifulSoup := fun html =>
       match dict_get html documents with
       | Some soup => soup
       | None => if truthy html then [NavigableString html] else []
       end;
     decode := serialize |}.

Definition html_type : option str := Some "text/html; charset=utf-8".

Definition respond (robots : http_result) (r : request) : http_result :=
  if str_eqb (req_url r) robots_txt_url then robots
  else if str_eqb (req_url r) api_url then Response 200 html_type api_html api_url
  else if str_eqb (req_url r) intro_url then Response 200 html_type intro_html intro_url
  else Response 404 html_type "Not found" (req_url r).

Definition no_robots : http_result := Response 404 html_type "Not found" robots_txt_url.

(** The renderer answers with an object holding [raw_markdown] only, and
    [markdownify] is not installed. *)
Definition world (robots : http_result) : World :=
  {| http_get := fun _ r => respond robots r;
     arun := fun _ _ => MdObject None (Some "rendered") None;
     fallback_md := None |}.

Definition config (seeds : list str) (max_pages : Z) : JobConfig :=
  {| cfg_seeds := seeds; cfg_same_domain := true; cfg_path_prefix := Some "/api";
     cfg_max_pages := max_pages; cfg_output_dir := "./export"; cfg_make_zip := false;
     cfg_obey_robots := true; cfg_include_fragments := true |}.

(** The site without robots.txt, and three jobs on it. *)
Definition plain : World := world no_robots.

Definition budget_one : JobConfig := config [api_url] 1.

Definition with_missing : JobConfig :=
  config ["https://docs.example/api/missing"; api_url] 5.

Definition two_anchors : JobConfig :=
  config ["https://docs.example/api#install"; "https://docs.example/api#usage"] 5.

(** The loop of [acrawl] on this site, for at most [n] turns. *)
Definition run (robots : http_result) (seeds : list str) (max_pages : Z) (n : nat)
  : crawl_state :=
  @turns Urllib.model parser (world robots) (config seeds max_pages) n
         (initial_state (config seeds max_pages)).

End Site.

(** An [int] for the examples: white space around, an optional sign, and
    decimal digits. *)
Definition decimal (s : str) : option Z :=
  let value := fold_left (fun acc c => 10 * acc + int_of_digit c)%Z in
  match strip s with
  | "-"%char :: d => if str_isdigit d then Some (- value d 0)%Z else None
  | "+"%char :: d => if str_isdigit d then Some (value d 0%Z) else None
  | d => if str_isdigit d then Some (value d 0%Z) else None
  end.

(** Answers with a stray blank between two commas and a negative budget. *)
Definition typed (max_pages : str) (start : bool) : answers :=
  {| ans_seeds := " https://docs.example/api , ,https://docs.example/api/intro";
     ans_same_domain := true; ans_path_prefix := "";
     ans_max_pages := max_pages; ans_output_dir := "./export";
     ans_make_zip := false; ans_obey_robots := true;
     ans_include_fragments := true; ans_start := start |}.

(* ===================================================================== *)
(** * Notions used in the statements *)
(* ===================================================================== *)

(** ** Text *)

(** Sanitization as the design document words it

    Lowercase, spaces to hyphens, any character outside [A-Za-z0-9-_.] to a
    hyphen, repeated hyphens collapsed, leading and trailing [-._] trimmed,
    and ["index"] for an empty result. *)
Module SanitizeSpec.

Definition outside_to_hyphen (c : ascii) : ascii :=
  if slug_char c then c else "-"%char.

(** A hyphen that is followed by another hyphen is dropped. *)
Fixpoint collapse_hyphens (s : str) : str :=
  match s with
  | [] => []
  | c :: t =>
      if is_hyphen c && match t with d :: _ => is_hyphen d | [] => false end
      then collapse_hyphens t
      else c :: collapse_hyphens t
  end.

Definition trim_ends (s : str) : str := strip_chars "-._" s.

Definition sanitize (s : str) : str :=
  let s1 := lower s in
  let s2 := map (fun c => if Ascii.eqb c " " then "-"%char else c) s1 in
  let s3 := map outside_to_hyphen s2 in
  let s4 := collapse_hyphens s3 in
  let s5 := trim_ends s4 in
  match s5 with [] => "index" | _ => s5 end.

End SanitizeSpec.

(** The characters that end up as a hyphen. *)
Definition dashed (c : ascii) : bool := negb (slug_char c) || is_hyphen c.

Definition non_slug (c : ascii) : bool := negb (slug_char c).

Definition trimmed (c : ascii) : bool := mem_char "-._" c.

(** White space collapsed, as a substitution: every run of white space
    becomes one space, and none is left at either end. *)
Definition collapse_ws (s : str) : str := strip (re_sub_plus isspace " " s).

Definition rstrip_with (p : ascii -> bool) (s : str) : str :=
  rev (drop_while p (rev s)).



(** ** Documents and answers *)

(** The rank of a heading element, [h1] to [h6]. *)
Definition heading_rank (n : node) : option Z :=
  match n with
  | Tag name _ _ =>
      if str_eqb name "h1" then Some 1%Z
      else if str_eqb name "h2" then Some 2%Z
      else if str_eqb name "h3" then Some 3%Z
      else if str_eqb name "h4" then Some 4%Z
      else if str_eqb name "h5" then Some 5%Z
      else if str_eqb name "h6" then Some 6%Z
      else None
  | _ => None
  end.

(** The two-line robots.txt of the design document. *)
Definition private_robots : str :=
  "User-agent: *" ++ [ascii_of_N 10] ++ "Disallow: /private".

(** The answers [fetch_html] turns into [(None, None)]: an exception, a
    status other than 200, a content type that names neither HTML nor
    XHTML. *)
Definition fetch_failure (r : http_result) : Prop :=
  match r with
  | Raised => True
  | Response status ct _ _ =>
      status <> 200%Z \/
      (contains (lower (match ct with Some c => c | None => "" end)) "text/html" = false /\
       contains (lower (match ct with Some c => c | None => "" end))
                "application/xhtml+xml" = false)
  end.

(** ** The crawl *)

(** The counter is the number of records and never passes the budget. *)
Definition counted (cfg : JobConfig) (st : crawl_state) : Prop :=
  processed st = Z.of_nat (length (records st)) /\
  (processed st <= Z.max 0 (cfg_max_pages cfg))%Z.

(** Requests sent so far. *)
Definition fetches (st : crawl_state) : list request :=
  flat_map (fun e => match e with EvGet r => [r] | _ => [] end) (trace st).

(** The frontier is a queue: entries leave at the head and links enter at
    the tail.  To speak of depth, the frontier is shadowed by a list of
    depths, one per entry: a seed has depth 0, a link discovered on a page
    of depth [d] has depth [d + 1].  The depths are not part of the state;
    they are computed beside the loop. *)
Inductive frontier_event :=
| Dequeued (url : str) (depth : nat)
| Enqueued (url : str) (depth : nat).

Section Schedule.

Context {U : UrlLib} {H : HtmlLib} {W : World}.
Variable cfg : JobConfig.

(** What the first [n] turns do to the frontier, with depths. *)
Fixpoint schedule (n : nat) (st : crawl_state) (depths : list nat)
  : list frontier_event :=
  match n with
  | O => []
  | S n' =>
      if loop_cond cfg st then
        match q st, depths with
        | popped :: rest, d :: ds =>
            let st' := loop_body cfg st in
            let links := skipn (length rest) (q st') in
            Dequeued popped d
            :: map (fun l => Enqueued l (S d)) links
            ++ schedule n' st' (ds ++ repeat (S d) (length links))
        | _, _ => []
        end
      else []
  end.

(** The entries popped in the first [n] turns, from the loop alone. *)
Fixpoint popped_urls (n : nat) (st : crawl_state) : list str :=
  match n with
  | O => []
  | S n' =>
      if loop_cond cfg st then
        match q st with
        | popped :: _ => popped :: popped_urls n' (loop_body cfg st)
        | [] => []
        end
      else []
  end.

Definition dequeued_of (evs : list frontier_event) : list str :=
  flat_map (fun e => match e with Dequeued u _ => [u] | Enqueued _ _ => [] end) evs.

(** Strict breadth-first order: after an entry of depth [k] was dequeued,
    only links deeper than [k] are enqueued.  So when an entry of depth
    [d + 1] is dequeued, every link of depth [d] is already in. *)
Fixpoint breadth_first (evs : list frontier_event) : Prop :=
  match evs with
  | [] => True
  | Dequeued _ k :: later =>
      (forall link d, In (Enqueued link d) later -> (k < d)%nat) /\ breadth_first later
  | Enqueued _ _ :: later => breadth_first later
  end.

(** The depths in the frontier span at most two levels, the lower first. *)
Definition levels (lo : nat) (depths : list nat) : Prop :=
  exists a b, depths = repeat lo a ++ repeat (S lo) b.

Definition deeper_than (lo : nat) (e : frontier_event) : Prop :=
  match e with
  | Dequeued _ k => (lo <= k)%nat
  | Enqueued _ d => (lo < d)%nat
  end.

End Schedule.

(** ** File names *)

(** The characters of a slug: lowercase letters, digits, [-], [_], [.]. *)
Definition safe_char (c : ascii) : bool :=
  islower c || isdigit c || mem_char "-_." c.

(** Neither end of the string satisfies [p]. *)
Definition ends_clear (p : ascii -> bool) (s : str) : Prop :=
  match s with c :: _ => p c = false | [] => True end /\
  match rev s with c :: _ => p c = false | [] => True end.

(** No hyphen is followed by a hyphen. *)
Fixpoint hyphens_single (s : str) : Prop :=
  match s with
  | [] => True
  | c :: t =>
      match t with
      | d :: _ => ~ (is_hyphen c = true /\ is_hyphen d = true)
      | [] => True
      end /\ hyphens_single t
  end.

(** What [os.path.join] puts between [a] and a relative component. *)
Definition sep_after (a : str) : str :=
  if negb (truthy a) || endswith_slash a then "" else "/".

(** A component made of slug characters that does not start with [-],
    [.] or [_]. *)
Definition safe_name (c : str) : Prop :=
  c <> [] /\ forallb safe_char c = true /\
  match c with x :: _ => trimmed x = false | [] => True end.

(** The non-empty segments of the path of the fragment-stripped URL. *)
Definition segments {U : UrlLib} (url : str) : list str :=
  filter truthy (split_on "/" (or_else (path (urlparse (fst (urldefrag url)))) "/")).

(** The slugs the address is made of: those of the segments, or [index]
    for a path without segments. *)
Definition slugs {U : UrlLib} (url : str) : list str :=
  match map slugify (segments url) with
  | [] => ["index"]
  | sl => sl
  end.


(** ** The crawl seen from outside *)

(** The page URLs requested so far ([fetch_html] follows redirects, the
    robots reader does not), the robots.txt requests, the URLs rendered
    and the files written. *)
Definition page_requests (st : crawl_state) : list str :=
  flat_map (fun e => match e with
                     | EvGet r => if req_follow_redirects r then [req_url r] else []
                     | _ => []
                     end) (trace st).

Definition robots_requests (st : crawl_state) : list str :=
  flat_map (fun e => match e with
                     | EvGet r => if req_follow_redirects r then [] else [req_url r]
                     | _ => []
                     end) (trace st).

Definition rendered (st : crawl_state) : list str :=
  flat_map (fun e => match e with EvRun u => [u] | _ => [] end) (trace st).

Definition written (st : crawl_state) : list str :=
  flat_map (fun e => match e with EvWrite f _ => [f] | _ => [] end) (trace st).


Section CrawlNotions.

Context {U : UrlLib}.
Variable cfg : JobConfig.

(** The two scope filters of the job: the same-domain test and the path
    prefix. *)
Definition in_scope (u : str) : Prop :=
  domain_ok cfg u = true /\ under_prefix u (cfg_path_prefix cfg) = true.

(** The pages requested so far are pairwise distinct, visited and in scope. *)
Definition pages_kept (st : crawl_state) : Prop :=
  NoDup (page_requests st) /\
  Forall (fun u => set_mem u (visited st) = true) (page_requests st) /\
  Forall in_scope (page_requests st).

(** Every entry of the frontier is a seed or a link that passed the scope
    filter, and every page requested passed it. *)
Definition scope_kept (st : crawl_state) : Prop :=
  Forall (fun e => In e (cfg_seeds cfg) \/ in_scope e) (q st) /\
  Forall in_scope (page_requests st).

(** The requests for robots.txt and the entries of the cache go in pairs,
    in order: one request per entry, for the host of the entry. *)
Definition robots_kept (st : crawl_state) : Prop :=
  Forall2 (fun asked entry =>
             exists u, asked = robots_url u /\ fst entry = netloc (urlparse u))
          (robots_requests st) (robots_cache st) /\
  NoDup (map fst (robots_cache st)) /\
  (cfg_obey_robots cfg = false -> robots_requests st = []).

(** The URL a record is filed under: its own, without the fragment. *)
Definition page_key (r : PageRecord) : str := fst (urldefrag (pr_url r)).

(** Records, files and renderings go together: the files written are those
    of the records, the pages rendered are the records' pages, each once,
    and each was visited and requested. *)
Definition records_kept (st : crawl_state) : Prop :=
  (map pr_filepath (records st) = written st /\
   map page_key (records st) = rendered st /\
   Forall (fun r => pr_filepath r = fst (path_for_url (pr_url r) (cfg_output_dir cfg)) /\
                    truthy (pr_url r) = true)
          (records st)) /\
  Forall (fun u => set_mem u (visited st) = true /\ In u (page_requests st)) (rendered st) /\
  NoDup (rendered st).

End CrawlNotions.

(** ** Lines of robots.txt *)

(** The value of a field line: what follows the first colon, stripped. *)
Definition field_value (line : str) : str := strip (after_colon (strip line)).

Definition is_agent_line (line : str) : bool :=
  startswith (lower (strip line)) "user-agent:".

Definition is_disallow_line (line : str) : bool :=
  startswith (lower (strip line)) "disallow:".

(** A [User-agent] line for every crawler. *)
Definition names_all_agents (line : str) : bool :=
  is_agent_line line && str_eqb (field_value line) "*".

(** Whether the last [User-agent] line of [lines] names [*]; [b] when
    [lines] has no such line. *)
Definition in_wildcard_group (lines : list str) (b : bool) : bool :=
  fold_left (fun b line => if is_agent_line line then str_eqb (field_value line) "*" else b)
            lines b.

(** Some [Disallow] line of [lines] has the non-empty value [p] and stands
    in the group of [User-agent: *]; [b] tells whether [lines] start inside
    such a group. *)
Definition disallowed_by (lines : list str) (b : bool) (p : str) : Prop :=
  exists before d after,
    lines = before ++ d :: after /\
    in_wildcard_group before b = true /\
    is_disallow_line d = true /\
    field_value d = p /\ p <> [].

(** ** Searches and white space *)

(** What a search answers: nothing when no node of the tree satisfies [p],
    and otherwise a chain that starts at the first such node in document
    order. *)
Definition locates (p : node -> bool) (answer : option (list crumb)) (tree : list node)
  : Prop :=
  match answer with
  | Some chain => exists found sibs up,
      chain = (found, sibs) :: up /\ find p tree = Some found
  | None => find p tree = None
  end.

(** The only white space of the string are single spaces, each after a
    character that is none; with [after_space] the string may not start
    with one either. *)
Fixpoint single_spaced (after_space : bool) (s : str) : bool :=
  match s with
  | [] => true
  | c :: t =>
      if isspace c
      then Ascii.eqb c " " && negb after_space && single_spaced true t
      else single_spaced false t
  end.

(* ===================================================================== *)
(** * Facts about Python text *)
(* ===================================================================== *)

Section TextFacts.

Variable p : ascii -> bool.

Lemma drop_while_map (f : ascii -> ascii) (s : str) :
  (forall c, p (f c) = p c) ->
  drop_while p (map f s) = map f (drop_while p s).
Proof.
  intros Hf. induction s as [ | c t IH]; simpl; [reflexivity | ].
  rewrite Hf. destruct (p c); [exact IH | reflexivity].
Qed.

Lemma strip_with_map (f : ascii -> ascii) (s : str) :
  (forall c, p (f c) = p c) ->
  strip_with p (map f s) = map f (strip_with p s).
Proof.
  intros Hf. unfold strip_with.
  rewrite drop_while_map, <- map_rev, drop_while_map, <- map_rev by exact Hf.
  reflexivity.
Qed.

Lemma take_drop_while (s : str) : take_while p s ++ drop_while p s = s.
Proof.
  induction s as [ | c t IH]; simpl; [reflexivity | ].
  destruct (p c); simpl; [f_equal; exact IH | reflexivity].
Qed.

Lemma take_while_all (s : str) : forallb p (take_while p s) = true.
Proof.
  induction s as [ | c t IH]; simpl; [reflexivity | ].
  destruct (p c) eqn:E; simpl; [rewrite E; exact IH | reflexivity].
Qed.

Lemma drop_while_all (s : str) : forallb p s = true -> drop_while p s = [].
Proof.
  induction s as [ | c t IH]; simpl; [reflexivity | ].
  destruct (p c); simpl; [exact IH | discriminate].
Qed.

Lemma drop_while_snoc (s : str) (c : ascii) :
  p c = true ->
  drop_while p (s ++ [c]) = if forallb p s then [] else drop_while p s ++ [c].
Proof.
  intros Hc. induction s as [ | d t IH]; simpl.
  - rewrite Hc. reflexivity.
  - destruct (p d); simpl; [exact IH | reflexivity].
Qed.

(** A string is its stripped middle between two runs of stripped
    characters. *)
Lemma strip_with_decompose (s : str) :
  exists w1 w2, s = w1 ++ strip_with p s ++ w2 /\
                forallb p w1 = true /\ forallb p w2 = true.
Proof.
  exists (take_while p s), (rev (take_while p (rev (drop_while p s)))).
  split; [ | split ].
  - unfold strip_with. rewrite <- rev_app_distr, take_drop_while, rev_involutive.
    symmetry. apply take_drop_while.
  - apply take_while_all.
  - rewrite forallb_forall. intros x Hx. apply in_rev in Hx.
    pose proof (take_while_all (rev (drop_while p s))) as Hall.
    rewrite forallb_forall in Hall. apply Hall. exact Hx.
Qed.

Lemma strip_with_cons (c : ascii) (s : str) :
  p c = true -> strip_with p (c :: s) = strip_with p s.
Proof. intros Hc. unfold strip_with. simpl. rewrite Hc. reflexivity. Qed.

Lemma strip_with_snoc (s : str) (c : ascii) :
  p c = true -> strip_with p (s ++ [c]) = strip_with p s.
Proof.
  intros Hc. unfold strip_with. rewrite drop_while_snoc by exact Hc.
  destruct (forallb p s) eqn:E.
  - rewrite (drop_while_all s E). reflexivity.
  - rewrite rev_app_distr. simpl. rewrite Hc. reflexivity.
Qed.

End TextFacts.

Lemma or_else_match (s d : str) :
  or_else s d = match s with [] => d | _ :: _ => s end.
Proof. destruct s; reflexivity. Qed.

Lemma str_eqb_eq (a b : str) : str_eqb a b = true <-> a = b.
Proof.
  unfold str_eqb. destruct (list_eq_dec ascii_dec a b); split; intros; congruence.
Qed.

Lemma str_eqb_refl (a : str) : str_eqb a a = true.
Proof. apply str_eqb_eq. reflexivity. Qed.

Ltac each_char c :=
  destruct c as [[] [] [] [] [] [] [] []]; vm_compute;
  try reflexivity; try discriminate; auto.

Lemma isspace_lower_char (c : ascii) : isspace (lower_char c) = isspace c.
Proof. each_char c. Qed.

Lemma lower_strip (s : str) : lower (strip s) = strip (lower s).
Proof.
  unfold lower, strip. symmetry. apply strip_with_map. exact isspace_lower_char.
Qed.

(* ===================================================================== *)
(** * [slugify] against the sanitization rule *)
(* ===================================================================== *)

Section Slugify.

Import SanitizeSpec.

Lemma char_cases (c : ascii) :
  (c = " "%char /\ dashed c = true) \/
  (c <> " "%char /\ non_slug c = true /\ is_hyphen c = false /\ dashed c = true) \/
  (c = "-"%char /\ non_slug c = false /\ dashed c = true) \/
  (c <> " "%char /\ non_slug c = false /\ is_hyphen c = false /\ dashed c = false).
Proof.
  destruct c as [[] [] [] [] [] [] [] []]; vm_compute;
    first [ left; split; [reflexivity | reflexivity]
          | right; left; repeat split; discriminate
          | right; right; left; repeat split; reflexivity
          | right; right; right; repeat split; discriminate ].
Qed.

(** The two substitutions of [slugify] amount to one pass that turns each
    run of [dashed] characters into one hyphen. *)
Lemma two_subs_one_pass (u : str) (b1 b2 : bool) :
  (b1 = true -> b2 = true) ->
  sub_runs is_hyphen "-" b2 (sub_runs non_slug "-" b1 (replace_char " " "-" u))
  = sub_runs dashed "-" b2 u.
Proof.
  revert b1 b2. induction u as [ | c t IH]; intros b1 b2 Hb; [reflexivity | ].
  cbn [replace_char map sub_runs]. fold (replace_char " " "-" t).
  destruct (char_cases c) as [(E & D) | [(N & S & Hy & D) | [(E & S & D) | (N & S & Hy & D)]]].
  - subst c. rewrite D. cbn. rewrite (IH false true) by reflexivity. reflexivity.
  - assert (Es : Ascii.eqb c " " = false) by (apply Ascii.eqb_neq; exact N).
    rewrite Es, S, D. destruct b1.
    + rewrite (Hb eq_refl). cbn. apply IH. reflexivity.
    + cbn. rewrite (IH true true) by reflexivity. reflexivity.
  - subst c. rewrite D. cbn. rewrite (IH false true) by discriminate. reflexivity.
  - assert (Es : Ascii.eqb c " " = false) by (apply Ascii.eqb_neq; exact N).
    rewrite Es, S, D. cbn [sub_runs]. rewrite Hy. f_equal. apply IH. discriminate.
Qed.

Lemma outside_after_space (c : ascii) :
  outside_to_hyphen (if Ascii.eqb c " " then "-"%char else c)
  = if dashed c then "-"%char else c.
Proof. each_char c. Qed.

Lemma dashed_hyphen (c : ascii) :
  is_hyphen (if dashed c then "-"%char else c) = dashed c.
Proof. each_char c. Qed.

(** Collapsing after the character-wise replacement is the same pass. *)
Lemma collapse_one_pass (t : str) :
  let w := map (fun c => if dashed c then "-"%char else c) t in
  collapse_hyphens w = sub_runs dashed "-" false t /\
  collapse_hyphens ("-"%char :: w) = "-" ++ sub_runs dashed "-" true t.
Proof.
  induction t as [ | c t IH]; [split; reflexivity | ].
  cbn zeta in *. destruct IH as [IHa IHb].
  cbn [map sub_runs].
  set (w := map (fun c => if dashed c then "-"%char else c) t) in *.
  destruct (dashed c) eqn:D.
  - split.
    + rewrite IHb. reflexivity.
    + change (collapse_hyphens ("-"%char :: "-"%char :: w))
        with (collapse_hyphens ("-"%char :: w)).
      rewrite IHb. reflexivity.
  - assert (Hy : is_hyphen c = false).
    { pose proof (dashed_hyphen c) as Hd. rewrite D in Hd. exact Hd. }
    split.
    + cbn [collapse_hyphens]. rewrite Hy. cbn [andb]. f_equal. exact IHa.
    + cbn [collapse_hyphens]. rewrite Hy.
      replace (is_hyphen "-") with true by reflexivity. cbn [andb app].
      f_equal. f_equal. exact IHa.
Qed.

Lemma sub_runs_in_run (w y : str) :
  forallb dashed w = true ->
  sub_runs dashed "-" true (w ++ y) = sub_runs dashed "-" true y.
Proof.
  induction w as [ | c w IH]; intros Hw; [reflexivity | ].
  simpl in Hw. apply andb_true_iff in Hw. destruct Hw as [Hc Hw].
  simpl. rewrite Hc. simpl. apply IH. exact Hw.
Qed.

Lemma drop_trimmed_flag (y : str) :
  drop_while trimmed (sub_runs dashed "-" false y)
  = drop_while trimmed (sub_runs dashed "-" true y).
Proof.
  destruct y as [ | c r]; [reflexivity | ].
  simpl. destruct (dashed c); reflexivity.
Qed.

Lemma strip_leading_run (w y : str) :
  forallb dashed w = true ->
  strip_with trimmed (sub_runs dashed "-" false (w ++ y))
  = strip_with trimmed (sub_runs dashed "-" false y).
Proof.
  intros Hw. unfold strip_with. f_equal. f_equal. f_equal.
  destruct w as [ | c w]; [reflexivity | ].
  simpl in Hw. apply andb_true_iff in Hw. destruct Hw as [Hc Hw].
  cbn [app sub_runs]. rewrite Hc. cbn [app drop_while].
  replace (trimmed "-") with true by reflexivity.
  rewrite sub_runs_in_run by exact Hw. symmetry. apply drop_trimmed_flag.
Qed.

Lemma sub_runs_trailing_run (w m : str) (b : bool) :
  forallb dashed w = true ->
  sub_runs dashed "-" b (m ++ w) = sub_runs dashed "-" b m \/
  sub_runs dashed "-" b (m ++ w) = sub_runs dashed "-" b m ++ "-".
Proof.
  intros Hw. revert b. induction m as [ | c m IH]; intros b.
  - destruct w as [ | d w]; [left; reflexivity | ].
    simpl in Hw. apply andb_true_iff in Hw. destruct Hw as [Hd Hw].
    cbn [app sub_runs]. rewrite Hd.
    pose proof (sub_runs_in_run w [] Hw) as Hr. rewrite app_nil_r in Hr.
    rewrite Hr. destruct b; [left | right]; reflexivity.
  - cbn [app sub_runs]. destruct (dashed c).
    + destruct (IH true) as [E | E]; rewrite E; [left; reflexivity | right].
      rewrite app_assoc. reflexivity.
    + destruct (IH false) as [E | E]; rewrite E; [left | right]; reflexivity.
Qed.

Lemma strip_trailing_run (w m : str) :
  forallb dashed w = true ->
  strip_with trimmed (sub_runs dashed "-" false (m ++ w))
  = strip_with trimmed (sub_runs dashed "-" false m).
Proof.
  intros Hw. destruct (sub_runs_trailing_run w m false Hw) as [E | E]; rewrite E.
  - reflexivity.
  - apply strip_with_snoc. reflexivity.
Qed.

Lemma isspace_dashed (c : ascii) : isspace c = true -> dashed c = true.
Proof. each_char c. Qed.

Lemma spaces_dashed (w : str) : forallb isspace w = true -> forallb dashed w = true.
Proof.
  rewrite !forallb_forall. intros Hw x Hx. apply isspace_dashed, Hw, Hx.
Qed.

(** Stripping white space first changes nothing once the ends are trimmed
    of hyphens. *)
Lemma strip_first_is_invisible (t : str) :
  strip_with trimmed (sub_runs dashed "-" false (strip t))
  = strip_with trimmed (sub_runs dashed "-" false t).
Proof.
  destruct (strip_with_decompose isspace t) as (w1 & w2 & E & H1 & H2).
  fold (strip t) in E. rewrite E at 2.
  rewrite strip_leading_run by (apply spaces_dashed; exact H1).
  rewrite strip_trailing_run by (apply spaces_dashed; exact H2).
  reflexivity.
Qed.

(** C8. For every input string, [slugify] returns what the sanitization
    rule describes: the string lowercased, spaces turned into hyphens, every
    character outside [A-Za-z0-9-_.] replaced by a hyphen, repeated hyphens
    collapsed into one, leading and trailing [-], [.], [_] trimmed, and
    ["index"] when nothing is left. *)
Theorem slugify_is_sanitize (text : str) :
  slugify text = SanitizeSpec.sanitize text.
Proof.
  unfold slugify, sanitize, trim_ends, re_sub_plus, strip_chars.
  cbv zeta.
  change (fun c => negb (slug_char c)) with non_slug.
  rewrite two_subs_one_pass by discriminate.
  rewrite lower_strip.
  change (mem_char "-._") with trimmed.
  rewrite strip_first_is_invisible.
  rewrite map_map.
  rewrite (map_ext _ _ outside_after_space).
  destruct (collapse_one_pass (lower text)) as [Hc _]. cbv zeta in Hc.
  rewrite Hc. apply or_else_match.
Qed.

End Slugify.

Example slugify_ex1 : slugify "  Hello World!.md " = "hello-world-.md".
Proof. vm_compute. reflexivity. Qed.

Example slugify_ex2 : slugify "--__.." = "index".
Proof. vm_compute. reflexivity. Qed.

(* ===================================================================== *)
(** * The crawl loop *)
(* ===================================================================== *)

Section CrawlFacts.

Context {U : UrlLib} {H : HtmlLib} {W : World}.
Variable cfg : JobConfig.

Lemma acrawl_loop_unfold (st : crawl_state) :
  acrawl_loop cfg st
  = if loop_cond cfg st then acrawl_loop cfg (loop_body cfg st) else st.
Proof.
  unfold acrawl_loop. rewrite Fix_eq.
  - unfold loop_step at 1. destruct (inspect (loop_cond cfg st)) as [[] Hc];
      rewrite Hc; reflexivity.
  - intros x f g Hfg. unfold loop_step.
    destruct (inspect (loop_cond cfg x)) as [[] Hc]; [apply Hfg | reflexivity].
Qed.

(** Induction along the turns of the loop. *)
Lemma acrawl_loop_rule (P : crawl_state -> crawl_state -> Prop) :
  (forall st, loop_cond cfg st = false -> P st st) ->
  (forall st, loop_cond cfg st = true ->
              P (loop_body cfg st) (acrawl_loop cfg (loop_body cfg st)) ->
              P st (acrawl_loop cfg (loop_body cfg st))) ->
  forall st, P st (acrawl_loop cfg st).
Proof.
  intros Hstop Hturn st.
  induction st as [st IH] using
    (well_founded_induction
       (wf_inverse_image crawl_state (nat * nat) weight_lt (weight cfg) weight_lt_wf)).
  rewrite acrawl_loop_unfold. destruct (loop_cond cfg st) eqn:Hc.
  - apply Hturn; [exact Hc | ]. apply IH. apply loop_body_decreases. exact Hc.
  - apply Hstop. exact Hc.
Qed.

(** The loop stops in a state that fails its condition. *)
Lemma acrawl_loop_stops (st : crawl_state) :
  loop_cond cfg (acrawl_loop cfg st) = false.
Proof.
  apply (acrawl_loop_rule (fun _ fin => loop_cond cfg fin = false)); auto.
Qed.

(** What every turn preserves holds when the loop has stopped. *)
Lemma acrawl_loop_invariant (I : crawl_state -> Prop) :
  (forall st, I st -> loop_cond cfg st = true -> I (loop_body cfg st)) ->
  forall st, I st -> I (acrawl_loop cfg st).
Proof.
  intros Hpres st.
  apply (acrawl_loop_rule (fun s fin => I s -> I fin)); auto.
Qed.

(** The loop is a bounded number of turns, and [turns] computes it. *)
Lemma turns_final (n : nat) (st : crawl_state) :
  loop_cond cfg (turns cfg n st) = false -> acrawl_loop cfg st = turns cfg n st.
Proof.
  revert st. induction n as [ | n IH]; intros st Hn; simpl in *.
  - rewrite acrawl_loop_unfold, Hn. reflexivity.
  - rewrite acrawl_loop_unfold. destruct (loop_cond cfg st); [apply IH; exact Hn | reflexivity].
Qed.

Lemma acrawl_loop_turns (st : crawl_state) :
  exists n, acrawl_loop cfg st = turns cfg n st.
Proof.
  apply (acrawl_loop_rule (fun s fin => exists n, fin = turns cfg n s)).
  - intros s Hc. exists O. reflexivity.
  - intros s Hc [n Hn]. exists (S n). simpl. rewrite Hc. exact Hn.
Qed.

Lemma turns_stopped (n : nat) (st : crawl_state) :
  loop_cond cfg st = false -> turns cfg n st = st.
Proof. intros Hc. destruct n; simpl; [ | rewrite Hc ]; reflexivity. Qed.

(** ** The page budget *)

Lemma counted_initial : counted cfg (initial_state cfg).
Proof. unfold counted; simpl. lia. Qed.

Lemma counted_turn (st : crawl_state) :
  counted cfg st -> loop_cond cfg st = true -> counted cfg (loop_body cfg st).
Proof.
  intros [Hn Hle] Hc. unfold loop_cond in Hc.
  apply andb_true_iff in Hc. destruct Hc as [Hq Hp]. apply Z.ltb_lt in Hp.
  destruct (q st) as [ | popped rest] eqn:Eq; [discriminate | ].
  destruct (loop_body_cases cfg st popped rest Eq)
    as [(_ & B & C) | (A & _ & [r C])]; unfold counted.
  - rewrite B, C. split; [exact Hn | exact Hle].
  - rewrite A, C, length_app. simpl. lia.
Qed.

Lemma counted_final : counted cfg (final_state cfg).
Proof.
  unfold final_state. apply acrawl_loop_invariant.
  - exact counted_turn.
  - exact counted_initial.
Qed.

(** C1. With [max_pages = N], [N >= 1], the crawl returns at most [N]
    records; its loop stops with the frontier empty or with [N] pages
    processed; and once stopped nothing more is fetched: the loop leaves the
    final state as it is, whatever is still in the frontier. *)
Theorem at_most_max_pages (N : Z) :
  cfg_max_pages cfg = N -> (1 <= N)%Z ->
  (Z.of_nat (length (acrawl cfg)) <= N)%Z /\
  (q (final_state cfg) = [] \/ processed (final_state cfg) = N) /\
  acrawl_loop cfg (final_state cfg) = final_state cfg /\
  (forall n, fetches (turns cfg n (final_state cfg)) = fetches (final_state cfg)).
Proof.
  intros HN Hpos.
  pose proof counted_final as [Hn Hle].
  pose proof (acrawl_loop_stops (initial_state cfg)) as Hstop.
  fold (final_state cfg) in Hstop.
  split; [ | split; [ | split ] ].
  - unfold acrawl. rewrite <- Hn. lia.
  - unfold loop_cond in Hstop.
    destruct (q (final_state cfg)); [left; reflexivity | right].
    simpl in Hstop. apply Z.ltb_ge in Hstop. lia.
  - rewrite acrawl_loop_unfold, Hstop. reflexivity.
  - intros n. rewrite turns_stopped by exact Hstop. reflexivity.
Qed.

End CrawlFacts.

Section Discarding.

Context {U : UrlLib} {H : HtmlLib} {W : World}.
Variable cfg : JobConfig.

Lemma fetch_failure_none (r : http_result) :
  fetch_failure r -> html_of_response r = (None, None).
Proof.
  destruct r as [ | status ct text final]; simpl; [reflexivity | ].
  intros [Hs | [H1 H2]].
  - destruct (Z.eqb_spec status 200); [contradiction | reflexivity].
  - destruct (status =? 200)%Z; simpl; [ | reflexivity ].
    rewrite H1, H2. reflexivity.
Qed.

Example fetch_outcomes :
  html_of_response (Response 200 (Some "application/pdf") "%PDF" "https://h/a.pdf")
  = (None, None) /\
  html_of_response (Response 200 (Some "Application/XHTML+XML") "<p/>" "https://h/a")
  = (Some "<p/>", Some "https://h/a") /\
  html_of_response (Response 200 None "<p/>" "https://h/a") = (None, None) /\
  html_of_response (Response 503 (Some "text/html") "busy" "https://h/a") = (None, None).
Proof. vm_compute. repeat split; reflexivity. Qed.

(** C7. In a turn of the loop, a URL the scope filter rejects (domain,
    prefix or robots) and a URL whose fetch fails (exception, status other
    than 200, content type other than HTML) is dropped from the frontier:
    the counter and the records stay as they were, and the crawl goes on
    from the state so reached. *)
Theorem rejected_url_is_discarded (st : crawl_state) (popped : str) (rest : list str) :
  loop_cond cfg st = true ->
  q st = popped :: rest ->
  let u := fst (urldefrag (strip popped)) in
  let st1 := set_visited (set_add u (visited st)) (set_q rest st) in
  (domain_ok cfg u = false \/
   under_prefix u (cfg_path_prefix cfg) = false \/
   fst (allowed cfg u st1) = false \/
   fetch_failure (http_get (trace (snd (allowed cfg u st1))) (html_request u))) ->
  q (loop_body cfg st) = rest /\
  processed (loop_body cfg st) = processed st /\
  records (loop_body cfg st) = records st /\
  acrawl_loop cfg st = acrawl_loop cfg (loop_body cfg st).
Proof.
  intros Hc Hq u st1 Hrej.
  assert (Hgo : acrawl_loop cfg st = acrawl_loop cfg (loop_body cfg st)).
  { rewrite (acrawl_loop_unfold cfg st), Hc. reflexivity. }
  destruct (loop_body_cases cfg st popped rest Hq) as [(A & B & C) | Hexp];
    [ repeat split; assumption | exfalso ].
  destruct Hexp as (Hp & _ & _). revert Hp.
  unfold loop_body. rewrite Hq. subst u st1.
  destruct (truthy (strip popped)); cbn [negb]; [ | simpl; lia ].
  destruct (urldefrag (strip popped)) as [u frag]. cbn [fst] in Hrej.
  destruct (set_mem u _); [ simpl; lia | ].
  cbn [visited set_q].
  destruct (domain_ok cfg u); cbn [negb]; [ | simpl; lia ].
  destruct (under_prefix u _); cbn [negb]; [ | simpl; lia ].
  match goal with |- context [allowed cfg ?x ?s] =>
    pose proof (allowed_frame cfg x s) as Fa;
    destruct (allowed cfg x s) as [ok st2] end.
  destruct Fa as (_ & _ & _ & Fp). cbn in Fp. cbn [fst snd] in Hrej.
  destruct ok; cbn [negb]; [ | lia ].
  unfold fetch_html.
  destruct Hrej as [Hd | [Hu | [Ha | Hf]]]; try discriminate.
  rewrite (fetch_failure_none _ Hf). simpl. lia.
Qed.

(** ** Entries that differ only in their fragment *)

Lemma set_mem_add (x : str) (s : str_set) : set_mem x (set_add x s) = true.
Proof.
  unfold set_add. destruct (set_mem x s) eqn:E; [exact E | ].
  induction s as [ | y s IH]; simpl in *.
  - rewrite str_eqb_refl. reflexivity.
  - apply orb_false_iff in E. destruct E as [E1 E2].
    rewrite E1. simpl. apply IH. exact E2.
Qed.

Lemma set_mem_add_keeps (x y : str) (s : str_set) :
  set_mem x s = true -> set_mem x (set_add y s) = true.
Proof.
  intros Hx. unfold set_add. destruct (set_mem y s); [exact Hx | ].
  induction s as [ | z s IH]; simpl in *; [discriminate | ].
  apply orb_true_iff in Hx. destruct Hx as [Hx | Hx].
  - rewrite Hx. reflexivity.
  - rewrite (IH Hx). apply orb_true_r.
Qed.

(** What a turn does to [visited]: it adds the key of a non-empty popped
    entry that is not there yet. *)
Lemma visited_after_turn (st : crawl_state) (popped : str) (rest : list str) :
  q st = popped :: rest ->
  visited (loop_body cfg st)
  = if truthy (strip popped)
       && negb (set_mem (fst (urldefrag (strip popped))) (visited st))
    then set_add (fst (urldefrag (strip popped))) (visited st)
    else visited st.
Proof.
  intros Hq. unfold loop_body. rewrite Hq.
  destruct (truthy (strip popped)); cbn [negb andb]; [ | reflexivity ].
  destruct (urldefrag (strip popped)) as [u frag]. cbn [fst].
  cbn [visited set_q].
  destruct (set_mem u (visited st)); cbn [negb]; [ reflexivity | ].
  destruct (domain_ok cfg u); cbn [negb]; [ | reflexivity ].
  destruct (under_prefix u _); cbn [negb]; [ | reflexivity ].
  match goal with |- context [allowed cfg ?x ?s] =>
    pose proof (allowed_frame cfg x s) as Fa;
    destruct (allowed cfg x s) as [ok st2] end.
  destruct Fa as (_ & Fv & _ & _). cbn in Fv.
  destruct ok; cbn [negb]; [ | exact Fv ].
  match goal with |- context [fetch_html ?x ?s] =>
    pose proof (fetch_html_frame x s) as Ff;
    destruct (fetch_html x s) as [fetched st3] end.
  destruct Ff as (_ & Gv & _ & _). cbn in Gv.
  assert (Hv3 : visited st3 = set_add u (visited st)) by congruence.
  destruct fetched as [[html|] [final_url|]]; try exact Hv3.
  destruct (truthy html); cbn [negb]; [ | exact Hv3 ].
  unfold export_page.
  destruct (title_and_desc_from_html html) as [title desc].
  destruct (path_for_url (strip popped) (cfg_output_dir cfg)) as [out_path stem].
  simpl. exact Hv3.
Qed.

Lemma visited_grows_turn (k : str) (st : crawl_state) :
  set_mem k (visited st) = true -> set_mem k (visited (loop_body cfg st)) = true.
Proof.
  intros Hk. destruct (q st) as [ | popped rest] eqn:Hq.
  - unfold loop_body. rewrite Hq. exact Hk.
  - rewrite (visited_after_turn st popped rest Hq).
    destruct (_ && _); [ apply set_mem_add_keeps | ]; exact Hk.
Qed.

Lemma visited_grows (k : str) (n : nat) (st : crawl_state) :
  set_mem k (visited st) = true -> set_mem k (visited (turns cfg n st)) = true.
Proof.
  revert st. induction n as [ | n IH]; intros st Hk; simpl; [exact Hk | ].
  destruct (loop_cond cfg st); [ | exact Hk ].
  apply IH. apply visited_grows_turn. exact Hk.
Qed.

(** A non-empty popped entry leaves its fragment-stripped form visited. *)
Lemma popped_is_visited (st : crawl_state) (popped : str) (rest : list str) :
  q st = popped :: rest -> truthy (strip popped) = true ->
  set_mem (fst (urldefrag (strip popped))) (visited (loop_body cfg st)) = true.
Proof.
  intros Hq Hraw. rewrite (visited_after_turn st popped rest Hq), Hraw.
  destruct (set_mem _ (visited st)) eqn:Hv; cbn [negb andb].
  - exact Hv.
  - apply set_mem_add.
Qed.

(** A popped entry whose fragment-stripped form is visited is dropped and
    nothing else happens. *)
Lemma visited_key_is_dropped (st : crawl_state) (popped : str) (rest : list str) :
  q st = popped :: rest ->
  set_mem (fst (urldefrag (strip popped))) (visited st) = true ->
  loop_body cfg st = set_q rest st.
Proof.
  intros Hq Hv. unfold loop_body. rewrite Hq.
  destruct (truthy (strip popped)); cbn [negb]; [ | reflexivity ].
  destruct (urldefrag (strip popped)) as [u frag]. cbn [fst] in Hv.
  cbn [visited set_q]. rewrite Hv. reflexivity.
Qed.

(** C2, as the program has it. Two frontier entries that differ only in
    their fragment share one visited key, their fragment-stripped form.
    Once the first of them was popped, the key is visited, and the other,
    whenever it is popped later, is dropped: no request, no record, no
    change of the counter. *)
Theorem same_page_other_fragment_is_dropped
    (st : crawl_state) (first second : str) (rest rest' : list str) (n : nat) :
  q st = first :: rest ->
  truthy (strip first) = true ->
  fst (urldefrag (strip first)) = fst (urldefrag (strip second)) ->
  q (turns cfg n (loop_body cfg st)) = second :: rest' ->
  let st' := turns cfg n (loop_body cfg st) in
  loop_body cfg st' = set_q rest' st' /\
  trace (loop_body cfg st') = trace st' /\
  records (loop_body cfg st') = records st' /\
  processed (loop_body cfg st') = processed st'.
Proof.
  intros Hq Hraw Hkey Hq' st'.
  assert (Hdrop : loop_body cfg st' = set_q rest' st').
  { apply (visited_key_is_dropped st' second rest' Hq').
    rewrite <- Hkey. apply visited_grows. apply (popped_is_visited st first rest Hq Hraw). }
  rewrite Hdrop. repeat split.
Qed.

End Discarding.


(* ===================================================================== *)
(** * The crawl on the example site *)
(* ===================================================================== *)

(** The final state of the crawl on the site, through [turns]. *)
Lemma site_final (robots : http_result) (seeds : list str) (max_pages : Z) (n : nat) :
  @loop_cond (Site.config seeds max_pages) (Site.run robots seeds max_pages n) = false ->
  @final_state Urllib.model Site.parser (Site.world robots) (Site.config seeds max_pages)
  = Site.run robots seeds max_pages n.
Proof. intros Hn. unfold final_state, Site.run. apply turns_final. exact Hn. Qed.

Example scenario_two_pages :
  map pr_url (@acrawl Urllib.model Site.parser Site.plain (Site.config [Site.api_url] 2))
  = [Site.api_url; Site.intro_url] /\
  map req_url (fetches (@final_state Urllib.model Site.parser Site.plain
                                     (Site.config [Site.api_url] 2)))
  = [Site.robots_txt_url; Site.api_url; Site.intro_url].
Proof.
  unfold acrawl, Site.plain.
  rewrite (site_final Site.no_robots [Site.api_url] 2 5) by (vm_compute; reflexivity).
  vm_compute. split; reflexivity.
Qed.

Example frontier_may_remain :
  q (@final_state Urllib.model Site.parser Site.plain Site.budget_one) = [Site.intro_url] /\
  processed (@final_state Urllib.model Site.parser Site.plain Site.budget_one) = 1%Z /\
  map req_url (fetches (@final_state Urllib.model Site.parser Site.plain Site.budget_one))
  = [Site.robots_txt_url; Site.api_url].
Proof.
  unfold Site.plain, Site.budget_one.
  rewrite (site_final Site.no_robots [Site.api_url] 1 5) by (vm_compute; reflexivity).
  vm_compute. repeat split; reflexivity.
Qed.

Lemma at_most_max_pages_witness :
  (Z.of_nat (length (@acrawl Urllib.model Site.parser Site.plain Site.budget_one)) <= 1)%Z /\
  (q (@final_state Urllib.model Site.parser Site.plain Site.budget_one) = [] \/
   processed (@final_state Urllib.model Site.parser Site.plain Site.budget_one) = 1%Z) /\
  @acrawl_loop Urllib.model Site.parser Site.plain Site.budget_one
     (@final_state Urllib.model Site.parser Site.plain Site.budget_one)
  = @final_state Urllib.model Site.parser Site.plain Site.budget_one /\
  (forall n,
     fetches (@turns Urllib.model Site.parser Site.plain Site.budget_one n
                (@final_state Urllib.model Site.parser Site.plain Site.budget_one))
     = fetches (@final_state Urllib.model Site.parser Site.plain Site.budget_one)).
Proof.
  apply (@at_most_max_pages Urllib.model Site.parser Site.plain Site.budget_one 1%Z);
    [vm_compute; reflexivity | lia].
Defined.

Lemma rejected_url_is_discarded_witness :
  q (@loop_body Urllib.model Site.parser Site.plain Site.with_missing
       (initial_state Site.with_missing)) = [Site.api_url] /\
  processed (@loop_body Urllib.model Site.parser Site.plain Site.with_missing
       (initial_state Site.with_missing)) = processed (initial_state Site.with_missing) /\
  records (@loop_body Urllib.model Site.parser Site.plain Site.with_missing
       (initial_state Site.with_missing)) = records (initial_state Site.with_missing) /\
  @acrawl_loop Urllib.model Site.parser Site.plain Site.with_missing
       (initial_state Site.with_missing)
  = @acrawl_loop Urllib.model Site.parser Site.plain Site.with_missing
       (@loop_body Urllib.model Site.parser Site.plain Site.with_missing
          (initial_state Site.with_missing)).
Proof.
  apply (@rejected_url_is_discarded Urllib.model Site.parser Site.plain Site.with_missing
           (initial_state Site.with_missing)
           "https://docs.example/api/missing" [Site.api_url]).
  - vm_compute; reflexivity.
  - vm_compute; reflexivity.
  - right. right. right. vm_compute. left. discriminate.
Defined.

Lemma second_fragment_is_not_exported :
  map pr_url (@acrawl Urllib.model Site.parser Site.plain Site.two_anchors)
  = ["https://docs.example/api#install"; "https://docs.example/api/intro"] /\
  map req_url (fetches (@final_state Urllib.model Site.parser Site.plain Site.two_anchors))
  = ["https://docs.example/robots.txt"; "https://docs.example/api";
     "https://docs.example/api/intro"] /\
  ~ In "https://docs.example/api#usage"
       (map pr_url (@acrawl Urllib.model Site.parser Site.plain Site.two_anchors)).
Proof.
  unfold acrawl, Site.plain, Site.two_anchors.
  rewrite (site_final Site.no_robots
             ["https://docs.example/api#install"; "https://docs.example/api#usage"] 5 5)
    by (vm_compute; reflexivity).
  vm_compute. split; [reflexivity | split; [reflexivity | ] ].
  intros Hin. repeat (destruct Hin as [Hin | Hin]; [discriminate Hin | ]). exact Hin.
Qed.

Lemma same_page_other_fragment_is_dropped_witness :
  @loop_body Urllib.model Site.parser Site.plain Site.two_anchors
    (@turns Urllib.model Site.parser Site.plain Site.two_anchors 0
       (@loop_body Urllib.model Site.parser Site.plain Site.two_anchors
          (initial_state Site.two_anchors)))
  = set_q ["https://docs.example/api/intro"]
      (@turns Urllib.model Site.parser Site.plain Site.two_anchors 0
         (@loop_body Urllib.model Site.parser Site.plain Site.two_anchors
            (initial_state Site.two_anchors))).
Proof.
  apply (@same_page_other_fragment_is_dropped Urllib.model Site.parser Site.plain
           Site.two_anchors (initial_state Site.two_anchors)
           "https://docs.example/api#install" "https://docs.example/api#usage"
           ["https://docs.example/api#usage"] ["https://docs.example/api/intro"] 0);
    vm_compute; reflexivity.
Defined.

(* ===================================================================== *)
(** * The address mapper *)
(* ===================================================================== *)

Lemma startswith_app (a b : str) : startswith (a ++ b) a = true.
Proof.
  induction a as [ | c a IH]; simpl; [destruct b; reflexivity | ].
  rewrite Ascii.eqb_refl. exact IH.
Qed.

Lemma startswith_refl (a : str) : startswith a a = true.
Proof. rewrite <- (app_nil_r a) at 1. apply startswith_app. Qed.

(** The stem is the slug of the last path segment of the fragment-stripped
    URL, followed by the slug of the fragment when there is one. *)
Lemma stem_shape {U : UrlLib} (url base_dir : str) :
  exists base,
    (forall w d, fst (urldefrag w) = fst (urldefrag url) ->
                 snd (path_for_url w d)
                 = slugify base ++
                   (if truthy (snd (urldefrag w))
                    then "__" ++ slugify (snd (urldefrag w)) else [])).
Proof.
  set (segs := filter truthy
                 (split_on "/" (or_else (path (urlparse (fst (urldefrag url)))) "/"))).
  exists (or_else (last (match segs with [] => ["index"] | _ :: _ => segs end) []) "index").
  intros w d Hw. unfold path_for_url.
  destruct (urldefrag w) as [w0 frag] eqn:Ew. cbn [fst snd] in *. subst w0.
  fold segs. cbv zeta. cbn [snd].
  destruct (truthy frag); [reflexivity | rewrite app_nil_r; reflexivity].
Qed.



Example stems_on_the_site :
  @path_for_url Urllib.model "https://docs.example/guide/Setup Page#Step 1" "./export"
  = ("./export/guide/setup-page__step-1.md", "setup-page__step-1") /\
  @path_for_url Urllib.model "https://docs.example/guide/Setup Page" "./export"
  = ("./export/guide/setup-page.md", "setup-page").
Proof. vm_compute. split; reflexivity. Qed.

(** ** The model of [urllib.parse]: stripping a fragment twice *)

Module UrllibFacts.

Definition hashless (s : str) : Prop := ~ In "#"%char s.

Lemma mem_char_in (s : str) (c : ascii) : mem_char s c = true <-> In c s.
Proof.
  unfold mem_char. rewrite existsb_exists. split.
  - intros [x [Hin Hx]]. apply Ascii.eqb_eq in Hx. subst x. exact Hin.
  - intros Hin. exists c. split; [exact Hin | apply Ascii.eqb_refl].
Qed.

Lemma in_drop_while (p : ascii -> bool) (c : ascii) (s : str) :
  In c (drop_while p s) -> In c s.
Proof.
  intros Hin. rewrite <- (take_drop_while p s). apply in_or_app. right. exact Hin.
Qed.

Lemma in_take_while (p : ascii -> bool) (c : ascii) (s : str) :
  In c (take_while p s) -> In c s /\ p c = true.
Proof.
  induction s as [ | x t IH]; simpl; [contradiction | ].
  destruct (p x) eqn:E; simpl; [ | contradiction ].
  intros [-> | Hin]; [split; [left; reflexivity | exact E] | ].
  destruct (IH Hin) as [A B]. split; [right; exact A | exact B].
Qed.

Lemma split1_parts (sep : ascii) (s : str) :
  match split1 sep s with
  | (a, Some b) => s = a ++ sep :: b /\ ~ In sep a
  | (a, None) => s = a /\ ~ In sep a
  end.
Proof.
  induction s as [ | c t IH]; simpl; [split; [reflexivity | intros []] | ].
  destruct (Ascii.eqb c sep) eqn:E.
  - apply Ascii.eqb_eq in E. subst c. split; [reflexivity | intros []].
  - apply Ascii.eqb_neq in E. destruct (split1 sep t) as [a [b | ]];
      destruct IH as [Ht Hn]; (split; [simpl; f_equal; exact Ht | ]);
      intros [Hc | Hin]; auto.
Qed.

Lemma cut_parts (sep : ascii) (s : str) :
  forall c, (In c (fst (Urllib.cut sep s)) -> In c s) /\
            (In c (snd (Urllib.cut sep s)) -> In c s).
Proof.
  intros c. unfold Urllib.cut. pose proof (split1_parts sep s) as Hs.
  destruct (split1 sep s) as [a [b | ]]; simpl.
  - destruct Hs as [-> _]. split; intros Hin; apply in_or_app;
      [left | right; right]; exact Hin.
  - split; [tauto | contradiction].
Qed.

Lemma cut_hash_first (s : str) : hashless (fst (Urllib.cut "#" s)).
Proof.
  unfold Urllib.cut, hashless. pose proof (split1_parts "#" s) as Hs.
  destruct (split1 "#" s) as [a [b | ]]; simpl; destruct Hs as [Hs Hn]; [exact Hn | ].
  subst a. exact Hn.
Qed.

Lemma splitparams_parts (s : str) :
  forall c, (In c (fst (Urllib.splitparams s)) -> In c s) /\
            (In c (snd (Urllib.splitparams s)) -> In c s).
Proof.
  intros c. unfold Urllib.splitparams.
  set (ns := fun x => negb (Ascii.eqb x "/")).
  pose proof (split1_parts ";" (rev (take_while ns (rev s)))) as Hs.
  assert (Htail : forall x, In x (rev (take_while ns (rev s))) -> In x s).
  { intros x Hx. apply in_rev in Hx. apply in_take_while in Hx.
    apply in_rev. exact (proj1 Hx). }
  assert (Hhead : forall x, In x (rev (drop_while ns (rev s))) -> In x s).
  { intros x Hx. apply in_rev in Hx. apply in_drop_while in Hx. apply in_rev. exact Hx. }
  destruct (split1 ";" (rev (take_while ns (rev s)))) as [a [b | ]]; simpl.
  - destruct Hs as [Hs _]. split; intros Hin.
    + apply in_app_or in Hin. destruct Hin as [Hin | Hin]; [apply Hhead; exact Hin | ].
      apply Htail. rewrite Hs. apply in_or_app. left. exact Hin.
    + apply Htail. rewrite Hs. apply in_or_app. right. right. exact Hin.
  - split; [tauto | contradiction].
Qed.

Lemma lower_char_hash (c : ascii) : lower_char c = "#"%char -> c = "#"%char.
Proof. each_char c. Qed.

Lemma split_scheme_parts (s : str) :
  hashless (fst (Urllib.split_scheme s)) /\
  (forall c, In c (snd (Urllib.split_scheme s)) -> In c s).
Proof.
  unfold Urllib.split_scheme. pose proof (split1_parts ":" s) as Hs.
  destruct (split1 ":" s) as [pre [rest | ]]; simpl;
    [ | split; [intros [] | tauto] ].
  destruct Hs as [Hs _].
  destruct pre as [ | x pre']; simpl; [split; [intros [] | tauto] | ].
  destruct (Urllib.isalpha x && (Urllib.scheme_char x && forallb Urllib.scheme_char pre'))
    eqn:E; simpl;
    [ | split; [intros [] | tauto] ].
  apply andb_true_iff in E. destruct E as [_ E].
  split.
  - intros Hin. change (In "#"%char (lower (x :: pre'))) in Hin.
    unfold lower in Hin. apply in_map_iff in Hin. destruct Hin as [y [Hy Hin]].
    apply lower_char_hash in Hy. subst y.
    change (forallb Urllib.scheme_char (x :: pre') = true) in E.
    rewrite forallb_forall in E. specialize (E _ Hin). discriminate.
  - intros c Hin. rewrite Hs. apply in_or_app. right. right. exact Hin.
Qed.

Lemma split_netloc_parts (s : str) :
  hashless (fst (Urllib.split_netloc s)) /\
  (forall c, In c (snd (Urllib.split_netloc s)) -> In c s).
Proof.
  unfold Urllib.split_netloc. destruct (startswith s "//") eqn:E; simpl;
    [ | split; [intros [] | tauto] ].
  split.
  - intros Hin. apply in_take_while in Hin. destruct Hin as [_ Hin]. discriminate.
  - intros c Hin. apply in_drop_while in Hin.
    destruct s as [ | a [ | b t]]; simpl in *; try contradiction; tauto.
Qed.

(** No component but the fragment holds a [#]. *)
Lemma urlparse_hashless (url : str) :
  hashless (scheme (Urllib.urlparse url)) /\ hashless (netloc (Urllib.urlparse url)) /\
  hashless (path (Urllib.urlparse url)) /\ hashless (params (Urllib.urlparse url)) /\
  hashless (query (Urllib.urlparse url)).
Proof.
  unfold Urllib.urlparse, Urllib.urlsplit.
  pose proof (split_scheme_parts (Urllib.clean url)) as [Hsch Hrest1].
  destruct (Urllib.split_scheme (Urllib.clean url)) as [sch rest1].
  simpl in Hsch, Hrest1.
  pose proof (split_netloc_parts rest1) as [Hnl Hrest2].
  destruct (Urllib.split_netloc rest1) as [nl rest2]. simpl in Hnl, Hrest2.
  pose proof (cut_hash_first rest2) as Hcut.
  destruct (Urllib.cut "#" rest2) as [rest3 frag]. simpl in Hcut.
  pose proof (cut_parts "?" rest3) as Hq.
  destruct (Urllib.cut "?" rest3) as [pth qry]. simpl in Hq.
  assert (Hpth : hashless pth) by (intros Hin; apply Hcut, (proj1 (Hq _)), Hin).
  assert (Hqry : hashless qry) by (intros Hin; apply Hcut, (proj2 (Hq _)), Hin).
  destruct (Urllib.mem_str sch Urllib.uses_params && mem_char pth ";").
  - pose proof (splitparams_parts pth) as Hp.
    destruct (Urllib.splitparams pth) as [pth' prm]. simpl in *.
    repeat split; try assumption.
    + intros Hin. apply Hpth, (proj1 (Hp _)), Hin.
    + intros Hin. apply Hpth, (proj2 (Hp _)), Hin.
  - simpl. repeat split; try assumption. intros [].
Qed.

Lemma hashless_app (a b : str) : hashless a -> hashless b -> hashless (a ++ b).
Proof. unfold hashless. intros Ha Hb Hin. apply in_app_or in Hin. tauto. Qed.

Lemma hashless_lit (a : str) : mem_char a "#" = false -> hashless a.
Proof. intros E Hin. apply mem_char_in in Hin. congruence. Qed.

Ltac hashless_parts :=
  first [ assumption
        | apply hashless_lit; reflexivity
        | apply hashless_app; hashless_parts
        | match goal with
          | |- hashless (if ?b then _ else _) => destruct b; hashless_parts
          end ].

Lemma urlunsplit_hashless (sch nl url qry : str) :
  hashless sch -> hashless nl -> hashless url -> hashless qry ->
  hashless (Urllib.urlunsplit sch nl url qry []).
Proof.
  intros Hs Hn Hu Hq. unfold Urllib.urlunsplit. cbv zeta.
  assert (H1 : hashless
                 (if truthy nl
                     || truthy sch && Urllib.mem_str sch Urllib.uses_netloc
                        && negb (startswith url "//")
                  then "//" ++ nl ++
                       (if truthy url && negb (startswith url "/") then "/" ++ url else url)
                  else url)) by hashless_parts.
  set (u1 := if truthy nl || _ then _ else url) in *.
  assert (H2 : hashless (if truthy sch then sch ++ ":" ++ u1 else u1)) by hashless_parts.
  set (u2 := if truthy sch then _ else u1) in *.
  cbn [truthy]. hashless_parts.
Qed.

(** The URL that [urldefrag] returns holds no [#]. *)
Lemma urldefrag_hashless (url : str) : hashless (fst (Urllib.urldefrag url)).
Proof.
  unfold Urllib.urldefrag. destruct (mem_char url "#") eqn:E; cbn [fst].
  - destruct (urlparse_hashless url) as (Hs & Hn & Hp & Hpr & Hq).
    unfold Urllib.urlunparse, Urllib.with_fragment.
    cbn [scheme netloc path params query fragment].
    apply urlunsplit_hashless; try assumption. hashless_parts.
  - apply hashless_lit. exact E.
Qed.

(** Stripping the fragment of a stripped URL changes nothing. *)
Lemma urldefrag_stripped (url : str) :
  Urllib.urldefrag (fst (Urllib.urldefrag url)) = (fst (Urllib.urldefrag url), []).
Proof.
  pose proof (urldefrag_hashless url) as Hh.
  unfold Urllib.urldefrag at 1.
  destruct (mem_char (fst (Urllib.urldefrag url)) "#") eqn:E;
    [ | reflexivity ].
  apply mem_char_in in E. contradiction.
Qed.

(** In the model, the stem of the fragment-stripped URL is a prefix of the
    stem of the URL, for every URL. *)
Lemma stem_of_stripped_in_model (u base_dir : str) :
  startswith (snd (@path_for_url Urllib.model u base_dir))
             (snd (@path_for_url Urllib.model (fst (Urllib.urldefrag u)) base_dir)) = true.
Proof.
  destruct (@stem_shape Urllib.model (fst (Urllib.urldefrag u)) base_dir) as [base Hb].
  assert (Hu : fst (@urldefrag Urllib.model u)
               = fst (@urldefrag Urllib.model (fst (Urllib.urldefrag u)))).
  { exact (eq_sym (f_equal fst (urldefrag_stripped u))). }
  rewrite (Hb u base_dir Hu), (Hb (fst (Urllib.urldefrag u)) base_dir eq_refl).
  change (@urldefrag Urllib.model (fst (Urllib.urldefrag u)))
    with (Urllib.urldefrag (fst (Urllib.urldefrag u))).
  rewrite urldefrag_stripped. cbn [snd truthy]. rewrite app_nil_r.
  apply startswith_app.
Qed.

End UrllibFacts.

(* ===================================================================== *)
(** * The scope filter *)
(* ===================================================================== *)






Example same_domain_ignores_case :
  @domain_ok Urllib.model (Site.config ["https://Docs.Example/api"] 5)
             "https://docs.example/api/intro" = true /\
  @domain_ok Urllib.model (Site.config ["https://docs.example/api"] 5)
             "https://other.example/api" = false.
Proof. vm_compute. split; reflexivity. Qed.

(* ===================================================================== *)
(** * robots.txt *)
(* ===================================================================== *)

Example private_robots_parsed : parse_robots private_robots = ["/private"].
Proof. vm_compute. reflexivity. Qed.

Lemma in_set_add (x : str) (s : str_set) : In x (set_add x s).
Proof.
  unfold set_add. destruct (set_mem x s) eqn:E.
  - induction s as [ | y s IH]; simpl in *; [discriminate | ].
    apply orb_true_iff in E. destruct E as [E | E].
    + left. symmetry. apply str_eqb_eq. exact E.
    + right. apply IH. exact E.
  - apply in_or_app. right. left. reflexivity.
Qed.

Lemma in_set_add_keeps (x y : str) (s : str_set) : In x s -> In x (set_add y s).
Proof.
  intros Hx. unfold set_add. destruct (set_mem y s); [exact Hx | ].
  apply in_or_app. left. exact Hx.
Qed.

(** A line never removes a recorded prefix. *)
Lemma robots_line_keeps (p : str) (acc : bool * str_set) (line : str) :
  In p (snd acc) -> In p (snd (robots_line acc line)).
Proof.
  intros Hp. destruct acc as [ua ds]. unfold robots_line.
  destruct (negb (truthy (strip line)) || startswith (strip line) "#"); [exact Hp | ].
  destruct (startswith (lower (strip line)) "user-agent:"); [exact Hp | ].
  destruct (ua && startswith (lower (strip line)) "disallow:"); [ | exact Hp ].
  destruct (truthy (strip (after_colon (strip line)))); [ | exact Hp ].
  simpl. apply in_set_add_keeps. exact Hp.
Qed.

Lemma robots_lines_keep (p : str) (lines : list str) (acc : bool * str_set) :
  In p (snd acc) -> In p (snd (fold_left robots_line lines acc)).
Proof.
  revert acc. induction lines as [ | l lines IH]; intros acc Hp; simpl; [exact Hp | ].
  apply IH. apply robots_line_keeps. exact Hp.
Qed.

(** Wherever the two lines stand in the file, [/private] is recorded. *)
Lemma private_is_recorded (body : str) (before after : list str) :
  splitlines body = before ++ ["User-agent: *"; "Disallow: /private"] ++ after ->
  In "/private" (parse_robots body).
Proof.
  intros Hl. unfold parse_robots. rewrite Hl, !fold_left_app.
  apply robots_lines_keep.
  destruct (fold_left robots_line before (false, [])) as [ua ds].
  cbn [fold_left app].
  replace (robots_line (ua, ds) "User-agent: *") with (true, ds) by reflexivity.
  change (robots_line (true, ds) "Disallow: /private") with (true, set_add "/private" ds).
  apply in_set_add.
Qed.

Lemma listed_prefix_rejects {U : UrlLib} (url prefix : str) (ds : str_set) :
  In prefix ds ->
  startswith (or_else (path (urlparse url)) "/") prefix = true ->
  allowed_by_robots url (Some ds) = false.
Proof.
  intros Hin Hp. unfold allowed_by_robots.
  destruct ds as [ | d ds]; [contradiction | ].
  apply negb_false_iff. apply existsb_exists. exists prefix. split; assumption.
Qed.

(** Every URL whose path starts with [/private] is rejected under a
    robots.txt that holds the two lines. *)
Lemma private_paths_rejected {U : UrlLib} (url body : str) (before after : list str)
    (ct : option str) (final : str) :
  splitlines body = before ++ ["User-agent: *"; "Disallow: /private"] ++ after ->
  startswith (or_else (path (urlparse url)) "/") "/private" = true ->
  allowed_by_robots url (robots_of_response (Response 200 ct body final)) = false.
Proof.
  intros Hl Hp. simpl.
  apply (listed_prefix_rejects url "/private"); [ | exact Hp ].
  apply (private_is_recorded body before after Hl).
Qed.

(** C4. Under the robots.txt [User-agent: *] / [Disallow: /private],
    answered with status 200, a URL is allowed exactly when its path does
    not start with [/private]; [https://h/private/x] is rejected and
    [https://h/public] accepted.  A status other than 200 and an exception
    (network failure, parse error) give no disallow set, and without one
    every URL is allowed. *)
Theorem robots_disallow_and_fail_open {U : UrlLib} (url : str) :
  (forall ct final,
     allowed_by_robots url (robots_of_response (Response 200 ct private_robots final))
     = negb (startswith (or_else (path (urlparse url)) "/") "/private")) /\
  (forall status ct body final,
     status <> 200%Z ->
     robots_of_response (Response status ct body final) = None) /\
  robots_of_response Raised = None /\
  allowed_by_robots url None = true /\
  (forall ct final,
     @allowed_by_robots Urllib.model "https://h/private/x"
        (robots_of_response (Response 200 ct private_robots final)) = false /\
     @allowed_by_robots Urllib.model "https://h/public"
        (robots_of_response (Response 200 ct private_robots final)) = true).
Proof.
  split; [ | split; [ | split; [ | split ] ] ].
  - intros ct final.
    change (robots_of_response (Response 200 ct private_robots final))
      with (Some ["/private"]).
    unfold allowed_by_robots. cbn [existsb]. rewrite orb_false_r. reflexivity.
  - intros status ct body final Hs. simpl.
    destruct (Z.eqb_spec status 200); [contradiction | reflexivity].
  - reflexivity.
  - reflexivity.
  - intros ct final. split; vm_compute; reflexivity.
Qed.

Section RobotsCache.

Context {U : UrlLib} {H : HtmlLib} {W : World}.
Variable cfg : JobConfig.

Lemma dict_get_set {V} (k : str) (v : V) (d : list (str * V)) :
  dict_get k (dict_set k v d) = Some v.
Proof.
  induction d as [ | [k' v'] d IH]; simpl.
  - rewrite str_eqb_refl. reflexivity.
  - destruct (str_eqb k k') eqn:E; simpl; rewrite ?str_eqb_refl, ?E; auto.
Qed.

(** The first question about a host sends one request for its robots.txt
    and decides by the answer; the answer is cached under the host. *)
Lemma allowed_first_time (u : str) (st : crawl_state) :
  cfg_obey_robots cfg = true ->
  dict_get (netloc (urlparse u)) (robots_cache st) = None ->
  let answer := robots_of_response (http_get (trace st) (robots_request u)) in
  fst (allowed cfg u st) = allowed_by_robots u answer /\
  trace (snd (allowed cfg u st)) = trace st ++ [EvGet (robots_request u)] /\
  dict_get (netloc (urlparse u)) (robots_cache (snd (allowed cfg u st))) = Some answer.
Proof.
  intros Hob Hmiss answer. unfold allowed. rewrite Hob, Hmiss. cbn [negb].
  unfold fetch_robots_disallows. cbn [fst snd robots_cache set_robots_cache emit trace].
  rewrite dict_get_set. repeat split; reflexivity.
Qed.

(** Later questions about the host send nothing. *)
Lemma allowed_cached (u : str) (st : crawl_state) (answer : option str_set) :
  dict_get (netloc (urlparse u)) (robots_cache st) = Some answer ->
  allowed cfg u st = (if cfg_obey_robots cfg then allowed_by_robots u answer else true, st).
Proof.
  intros Hhit. unfold allowed. destruct (cfg_obey_robots cfg); cbn [negb]; [ | reflexivity ].
  rewrite Hhit. cbv zeta. rewrite Hhit. reflexivity.
Qed.

End RobotsCache.

(* ===================================================================== *)
(** * The fragment slicer *)
(* ===================================================================== *)

Ltac by_name name :=
  repeat match goal with
         | |- context [str_eqb name ?lit] =>
             let E := fresh "E" in
             destruct (str_eqb name lit) eqn:E;
             [ apply str_eqb_eq in E; subst name; try reflexivity | ]
         end.

Lemma is_heading_rank (n : node) :
  is_heading n = match heading_rank n with Some _ => true | None => false end.
Proof.
  destruct n as [name attrs cs | s | s]; try reflexivity.
  unfold is_heading, heading_rank, node_name, heading_tags. cbn [existsb].
  by_name name. reflexivity.
Qed.

(** A sibling ends the section exactly when it is a heading whose rank is
    at most the level of the section. *)
Lemma closes_section_rank (level : Z) (sib : node) :
  closes_section level sib
  = match heading_rank sib with
    | Some r => (r <=? level)%Z
    | None => false
    end.
Proof.
  destruct sib as [name attrs cs | s | s]; try reflexivity.
  unfold closes_section, is_heading, heading_rank, node_name, heading_tags.
  cbn [existsb].
  by_name name. reflexivity.
Qed.

(** The level of a heading is its rank. *)
Lemma level_of_heading (n : node) (r : Z) :
  heading_rank n = Some r -> level_of n = r.
Proof.
  destruct n as [name attrs cs | s | s]; try discriminate.
  unfold heading_rank, level_of, node_name.
  by_name name; try (intros E'; injection E' as <-; reflexivity).
  discriminate.
Qed.

Lemma nearest_heading_is_heading (chain : list crumb) (start : crumb) :
  nearest_heading chain = Some start -> is_heading (fst start) = true.
Proof.
  induction chain as [ | c up IH]; simpl; [discriminate | ].
  destruct (is_heading (fst c)) eqn:E; [ | exact IH ].
  intros E'. injection E' as <-. exact E.
Qed.

(** The section that starts at a heading: the heading and its following
    siblings up to the first heading of the same or a higher rank. *)
Lemma slice_from_heading (soup : list node) (fragment : str)
    (chain : list crumb) (start : node) (sibs : list node) (r : Z) :
  truthy fragment = true ->
  locate_fragment soup fragment = Some chain ->
  nearest_heading chain = Some (start, sibs) ->
  heading_rank start = Some r ->
  slice_soup soup fragment
  = Some (Tag "div" []
            (map as_child
               (start :: take_until
                           (fun sib => match heading_rank sib with
                                       | Some k => (k <=? r)%Z
                                       | None => false
                                       end) sibs))).
Proof.
  intros Hf Hloc Hnear Hr. unfold slice_soup, section_start, collected_for.
  rewrite Hf, Hloc, Hnear. cbn [negb fst snd].
  rewrite (level_of_heading start r Hr).
  do 4 f_equal. clear. induction sibs as [ | x l IH]; simpl; [reflexivity | ].
  rewrite closes_section_rank, IH. reflexivity.
Qed.

(** For a section started at an [h2]: the slice holds the heading and its
    following siblings, stops before the next sibling [h1] or [h2], and
    keeps the headings [h3] to [h6] in between. *)
Lemma slice_from_h2 (soup : list node) (fragment : str) (chain : list crumb)
    (attrs : list (str * str)) (cs sibs : list node) :
  truthy fragment = true ->
  locate_fragment soup fragment = Some chain ->
  nearest_heading chain = Some (Tag "h2" attrs cs, sibs) ->
  slice_soup soup fragment
  = Some (Tag "div" []
            (map as_child
               (Tag "h2" attrs cs
                :: take_until (fun sib => is_tag_named "h1" sib || is_tag_named "h2" sib)
                              sibs))).
Proof.
  intros Hf Hloc Hnear.
  rewrite (slice_from_heading soup fragment chain (Tag "h2" attrs cs) sibs 2%Z
             Hf Hloc Hnear eq_refl).
  do 4 f_equal. clear. induction sibs as [ | x l IH]; simpl; [reflexivity | ].
  rewrite IH. replace (match heading_rank x with
                       | Some k => (k <=? 2)%Z
                       | None => false
                       end) with (is_tag_named "h1" x || is_tag_named "h2" x);
    [reflexivity | ].
  destruct x as [name a c | s | s]; try reflexivity.
  unfold heading_rank, is_tag_named. by_name name. reflexivity.
Qed.

(** Without an enclosing heading the element found is the section root; its
    level is 6 unless its name is an [h] followed by digits. *)
Lemma slice_without_heading (soup : list node) (fragment : str)
    (found : node) (sibs : list node) (up : list crumb) :
  truthy fragment = true ->
  locate_fragment soup fragment = Some ((found, sibs) :: up) ->
  nearest_heading ((found, sibs) :: up) = None ->
  slice_soup soup fragment
  = Some (Tag "div" []
            (map as_child
               (found :: take_until (closes_section (level_of found)) sibs))).
Proof.
  intros Hf Hloc Hnear. unfold slice_soup, section_start, collected_for.
  rewrite Hf, Hloc, Hnear. reflexivity.
Qed.

Lemma level_of_plain_name (name : str) :
  (startswith name "h" && str_isdigit (skipn 1 name)) = false ->
  level_of_name name = 6%Z.
Proof.
  intros Hn. unfold level_of_name. rewrite <- andb_assoc, Hn, andb_false_r. reflexivity.
Qed.

Lemma closes_section_6 (sib : node) : closes_section 6 sib = is_heading sib.
Proof.
  rewrite closes_section_rank, is_heading_rank.
  destruct sib as [name a c | s | s]; try reflexivity.
  unfold heading_rank. by_name name. reflexivity.
Qed.

(** The section of the example page under [install]: it stops before the
    next [h2] and keeps the [h3]. *)
Example slice_install :
  slice_soup Site.api_soup "install" = Some Site.install_section.
Proof. vm_compute. reflexivity. Qed.

(** An element found outside every heading whose name is not of the form
    [h] digits gets level 6: the section ends before the next heading. *)
Example slice_span :
  slice_soup [ Tag "span" [("id", "x")] [NavigableString "a"];
               Tag "p" [] [NavigableString "b"];
               Tag "h2" [] [NavigableString "c"];
               Tag "p" [] [NavigableString "d"] ] "x"
  = Some (Tag "div" [] [ Tag "span" [("id", "x")] [NavigableString "a"];
                         Tag "p" [] [NavigableString "b"] ]).
Proof. vm_compute. reflexivity. Qed.

(** C5 (the program departs from it). The document
    [<h0 id='x'>a</h0><p>b</p><h2>c</h2><p>d</p>] has no heading around the
    element [x], so the section should have the implicit rank 6 and end
    before the [h2].  The program takes the level from the name [h0]: level 0,
    which no heading closes, and the slice runs to the end of the document. *)
Lemma slice_h0_runs_past_headings :
  level_of (Tag "h0" [("id", "x")] [NavigableString "a"]) = 0%Z /\
  slice_soup [ Tag "h0" [("id", "x")] [NavigableString "a"];
               Tag "p" [] [NavigableString "b"];
               Tag "h2" [] [NavigableString "c"];
               Tag "p" [] [NavigableString "d"] ] "x"
  = Some (Tag "div" [] [ Tag "h0" [("id", "x")] [NavigableString "a"];
                         Tag "p" [] [NavigableString "b"];
                         Tag "h2" [] [NavigableString "c"];
                         Tag "p" [] [NavigableString "d"] ]).
Proof. vm_compute. split; reflexivity. Qed.

(* ===================================================================== *)
(** * Title and description *)
(* ===================================================================== *)

Lemma forallb_rev (p : ascii -> bool) (s : str) : forallb p (rev s) = forallb p s.
Proof.
  induction s as [ | c t IH]; simpl; [reflexivity | ].
  rewrite forallb_app, IH. simpl. rewrite andb_true_r. apply andb_comm.
Qed.

Lemma drop_while_snoc_any (p : ascii -> bool) (s : str) (c : ascii) :
  drop_while p (s ++ [c])
  = if forallb p s then (if p c then [] else [c]) else drop_while p s ++ [c].
Proof.
  induction s as [ | d t IH]; simpl; [reflexivity | ].
  destruct (p d); simpl; [exact IH | reflexivity].
Qed.

Lemma rstrip_with_cons (p : ascii -> bool) (c : ascii) (s : str) :
  rstrip_with p (c :: s)
  = if forallb p (c :: s) then [] else c :: rstrip_with p s.
Proof.
  unfold rstrip_with. simpl. rewrite drop_while_snoc_any, forallb_rev.
  destruct (forallb p s) eqn:Es.
  - destruct (p c); simpl; [reflexivity | ].
    rewrite drop_while_all by (rewrite forallb_rev; exact Es). reflexivity.
  - rewrite andb_false_r, rev_app_distr. reflexivity.
Qed.

Lemma join_cons (sep x : str) (rest : list str) :
  join sep (x :: rest)
  = x ++ match rest with [] => [] | _ :: _ => sep ++ join sep rest end.
Proof. destruct rest; simpl; [rewrite app_nil_r | ]; reflexivity. Qed.

Lemma words_from_nil (cur s : str) :
  words_from cur s = [] -> cur = [] /\ forallb isspace s = true.
Proof.
  revert cur. induction s as [ | c t IH]; intros cur; simpl.
  - destruct cur; [tauto | discriminate].
  - destruct (isspace c); simpl.
    + destruct cur; [ | discriminate ]. intros E. split; [reflexivity | apply (IH [] E)].
    + intros E. destruct (IH _ E) as [E' _]. discriminate.
Qed.

Lemma words_of_spaces (s : str) : forallb isspace s = true -> words_from [] s = [].
Proof.
  induction s as [ | c t IH]; simpl; [reflexivity | ].
  destruct (isspace c); simpl; [exact IH | discriminate].
Qed.

Section Collapse.

Let ws := sub_runs isspace " ".

Lemma ws_spaces (b : bool) (s : str) : forallb isspace (ws b s) = forallb isspace s.
Proof.
  revert b. induction s as [ | c t IH]; intros b; [reflexivity | ].
  unfold ws in *. simpl. destruct (isspace c) eqn:E; simpl.
  - rewrite forallb_app, IH. destruct b; reflexivity.
  - rewrite E. reflexivity.
Qed.

Lemma ws_in_run_no_lead (s : str) : drop_while isspace (ws true s) = ws true s.
Proof.
  induction s as [ | c t IH]; [reflexivity | ].
  unfold ws in *. simpl. destruct (isspace c) eqn:E; simpl; [exact IH | ].
  rewrite E. reflexivity.
Qed.

Lemma ws_lstrip (s : str) : drop_while isspace (ws false s) = ws true s.
Proof.
  destruct s as [ | c t]; [reflexivity | ].
  unfold ws. simpl. destruct (isspace c) eqn:E; simpl.
  - apply ws_in_run_no_lead.
  - rewrite E. reflexivity.
Qed.

(** The words joined by single spaces, by the state of the scan. *)
Lemma join_words_from (s cur : str) :
  join " " (words_from cur s)
  = match cur with
    | [] => rstrip_with isspace (ws true s)
    | _ :: _ => rev cur ++ rstrip_with isspace (ws false s)
    end.
Proof.
  revert cur. induction s as [ | c t IH]; intros cur.
  - destruct cur; simpl; [reflexivity | rewrite app_nil_r; reflexivity].
  - cbn [words_from]. unfold ws in *. cbn [sub_runs].
    destruct (isspace c) eqn:E.
    + destruct cur as [ | x cur'].
      * rewrite (IH []). reflexivity.
      * cbn [app]. rewrite join_cons, (rstrip_with_cons isspace " " (sub_runs isspace " " true t)).
        cbn [forallb]. replace (isspace " ") with true by reflexivity. cbn [andb].
        fold ws. rewrite ws_spaces. unfold ws.
        destruct (forallb isspace t) eqn:Et.
        -- rewrite (words_of_spaces t Et). reflexivity.
        -- destruct (words_from [] t) as [ | w more] eqn:Ew.
           ++ apply words_from_nil in Ew. destruct Ew as [_ Ew]. congruence.
           ++ rewrite <- Ew, (IH []). reflexivity.
    + rewrite (IH (c :: cur)). cbn [rev app].
      rewrite (rstrip_with_cons isspace c (sub_runs isspace " " false t)).
      cbn [forallb]. rewrite E. cbn [andb].
      destruct cur; [reflexivity | ].
      rewrite <- app_assoc. reflexivity.
Qed.

(** [' '.join(s.split())] collapses the white space of [s]. *)
Lemma join_split_collapses (s : str) : join " " (split_ws s) = collapse_ws s.
Proof.
  unfold split_ws, collapse_ws, strip, strip_with, re_sub_plus.
  rewrite (join_words_from s []). fold ws. rewrite ws_lstrip. reflexivity.
Qed.

End Collapse.

Lemma length_firstn_le {A} (n : nat) (l : list A) : (length (firstn n l) <= n)%nat.
Proof. rewrite length_firstn. apply Nat.le_min_l. Qed.

(** C10. For a fetched document, the title is ["Untitled"] when the
    document has no [title] element, and when that element is empty (no
    content, or an empty string); the description is empty when the
    document has no [p] element, and otherwise it is the text of the first
    [p] with its white space collapsed, cut to 280 characters. *)
Theorem title_and_desc_defaults {H : HtmlLib} (html : str) :
  (find_tag "title" (BeautifulSoup html) = None ->
   fst (title_and_desc_from_html html) = "Untitled") /\
  (forall t, find_tag "title" (BeautifulSoup html) = Some t ->
             contents_of t = [] \/ node_string t = Some [] ->
             fst (title_and_desc_from_html html) = "Untitled") /\
  (find_tag "p" (BeautifulSoup html) = None ->
   snd (title_and_desc_from_html html) = []) /\
  (forall p, find_tag "p" (BeautifulSoup html) = Some p ->
             snd (title_and_desc_from_html html)
             = firstn 280 (collapse_ws (get_text_strip " " (contents_of p)))) /\
  (length (snd (title_and_desc_from_html html)) <= 280)%nat.
Proof.
  unfold title_and_desc_from_html, title_of_soup, desc_of_soup. cbn [fst snd].
  split; [ | split; [ | split; [ | split ] ] ].
  - intros Ht. rewrite Ht. reflexivity.
  - intros t Ht Hempty. rewrite Ht. destruct Hempty as [Hc | Hs].
    + destruct t as [name attrs cs | s | s]; simpl in Hc.
      * subst cs. reflexivity.
      * apply find_some in Ht. destruct Ht as [_ Ht]. discriminate.
      * apply find_some in Ht. destruct Ht as [_ Ht]. discriminate.
    + rewrite Hs. reflexivity.
  - intros Hp. rewrite Hp. reflexivity.
  - intros p Hp. rewrite Hp, join_split_collapses. reflexivity.
  - destruct (find_tag "p" (BeautifulSoup html)); [apply length_firstn_le | simpl; lia].
Qed.

(** A title of white space only is not empty: it is returned stripped. *)
Example blank_title_is_stripped :
  title_of_soup [Tag "title" [] [NavigableString "   "]] = "" /\
  title_of_soup [Tag "title" [] []] = "Untitled" /\
  title_of_soup [Tag "title" [] [NavigableString " Guide "]] = "Guide".
Proof. vm_compute. repeat split; reflexivity. Qed.

Example title_and_desc_of_api :
  @title_and_desc_from_html Site.parser Site.api_html = ("API", "Run pip.") /\
  @title_and_desc_from_html Site.parser "no markup at all" = ("Untitled", "").
Proof. vm_compute. split; reflexivity. Qed.

(* ===================================================================== *)
(** * Breadth-first order *)
(* ===================================================================== *)

Section BreadthFirst.

Context {U : UrlLib} {H : HtmlLib} {W : World}.
Variable cfg : JobConfig.

Lemma levels_step (lo d : nat) (ds : list nat) (k : nat) :
  levels lo (d :: ds) -> (lo <= d)%nat /\ levels d (ds ++ repeat (S d) k).
Proof.
  intros [a [b E]]. destruct a as [ | a]; simpl in E.
  - destruct b as [ | b]; simpl in E; [discriminate | ].
    injection E as Ed Eds. subst d ds. split; [lia | ].
    exists b, k. reflexivity.
  - injection E as Ed Eds. subst d ds. split; [lia | ].
    exists a, (b + k)%nat. rewrite <- app_assoc, repeat_app. reflexivity.
Qed.

Lemma frontier_after_turn (st : crawl_state) (popped : str) (rest : list str) :
  q st = popped :: rest ->
  q (loop_body cfg st) = rest ++ skipn (length rest) (q (loop_body cfg st)).
Proof.
  intros Hq.
  destruct (loop_body_cases cfg st popped rest Hq) as [(A & _) | (_ & [links A] & _)];
    rewrite A.
  - rewrite skipn_all, app_nil_r. reflexivity.
  - rewrite skipn_app, skipn_all, Nat.sub_diag. reflexivity.
Qed.

Lemma schedule_bounds (n : nat) (st : crawl_state) (lo : nat) (depths : list nat) :
  levels lo depths -> Forall (deeper_than lo) (schedule cfg n st depths).
Proof.
  revert st lo depths. induction n as [ | n IH]; intros st lo depths Hl; simpl.
  - constructor.
  - destruct (loop_cond cfg st); [ | constructor ].
    destruct (q st) as [ | popped rest]; [constructor | ].
    destruct depths as [ | d ds]; [constructor | ].
    destruct (levels_step lo d ds
                (length (skipn (length rest) (q (loop_body cfg st)))) Hl) as [Hlo Hl'].
    constructor; [exact Hlo | ].
    apply Forall_app. split.
    + apply Forall_forall. intros e He. apply in_map_iff in He.
      destruct He as [l [<- _]]. simpl. lia.
    + specialize (IH (loop_body cfg st) d _ Hl').
      eapply Forall_impl; [ | exact IH ].
      intros [u k | u k]; simpl; lia.
Qed.

Lemma breadth_first_enqueues (links : list str) (d : nat) (evs : list frontier_event) :
  breadth_first (map (fun l => Enqueued l d) links ++ evs) <-> breadth_first evs.
Proof. induction links as [ | l links IH]; simpl; [tauto | exact IH]. Qed.

Lemma schedule_breadth_first (n : nat) (st : crawl_state) (lo : nat) (depths : list nat) :
  levels lo depths -> breadth_first (schedule cfg n st depths).
Proof.
  revert st lo depths. induction n as [ | n IH]; intros st lo depths Hl; simpl.
  - exact I.
  - destruct (loop_cond cfg st); [ | exact I ].
    destruct (q st) as [ | popped rest]; [exact I | ].
    destruct depths as [ | d ds]; [exact I | ].
    destruct (levels_step lo d ds
                (length (skipn (length rest) (q (loop_body cfg st)))) Hl) as [Hlo Hl'].
    simpl. split.
    + intros link k Hin. apply in_app_or in Hin. destruct Hin as [Hin | Hin].
      * apply in_map_iff in Hin. destruct Hin as [l [E _]].
        injection E as _ <-. lia.
      * pose proof (schedule_bounds n (loop_body cfg st) d _ Hl') as Hb.
        rewrite Forall_forall in Hb. exact (Hb _ Hin).
    + apply breadth_first_enqueues. apply (IH _ d). exact Hl'.
Qed.

(** The shadow follows the loop: it dequeues what the loop pops. *)
Lemma schedule_follows_loop (n : nat) (st : crawl_state) (depths : list nat) :
  length depths = length (q st) ->
  dequeued_of (schedule cfg n st depths) = popped_urls cfg n st.
Proof.
  revert st depths. induction n as [ | n IH]; intros st depths Hlen; simpl; [reflexivity | ].
  destruct (loop_cond cfg st); [ | reflexivity ].
  destruct (q st) as [ | popped rest] eqn:Hq; [reflexivity | ].
  destruct depths as [ | d ds]; [discriminate | ].
  simpl. f_equal. unfold dequeued_of. rewrite flat_map_app.
  replace (flat_map _ (map _ _)) with (@nil str).
  - simpl. apply IH. rewrite length_app, repeat_length.
    rewrite (frontier_after_turn st popped rest Hq) at 2.
    rewrite length_app. simpl in Hlen. lia.
  - clear. induction (skipn _ _) as [ | l links IHl]; simpl; [reflexivity | exact IHl].
Qed.

(** C3. The traversal is strict breadth-first.  The frontier is first-in
    first-out: a turn pops the head and appends the links discovered on
    the page, in page order, behind what was there.  With seeds at depth 0
    and the links of a depth-[d] page at depth [d+1], once an entry of depth
    [k] has been dequeued only deeper links are enqueued; hence all links of
    depth [d] are enqueued before any link of depth [d+1] is dequeued. *)
Theorem strict_breadth_first (n : nat) :
  breadth_first
    (schedule cfg n (initial_state cfg) (repeat 0%nat (length (cfg_seeds cfg)))) /\
  dequeued_of (schedule cfg n (initial_state cfg) (repeat 0%nat (length (cfg_seeds cfg))))
  = popped_urls cfg n (initial_state cfg) /\
  (forall st popped rest,
     q st = popped :: rest ->
     exists links, q (loop_body cfg st) = rest ++ links) /\
  (forall raw url_no_frag frag html final_url st,
     q (export_page cfg raw url_no_frag frag html final_url st)
     = q st ++ discovered cfg (visited st) final_url html).
Proof.
  split; [ | split; [ | split ] ].
  - apply (schedule_breadth_first n _ 0%nat).
    exists (length (cfg_seeds cfg)), 0%nat. simpl. rewrite app_nil_r. reflexivity.
  - apply schedule_follows_loop. simpl. apply repeat_length.
  - intros st popped rest Hq. eexists. apply (frontier_after_turn st popped rest Hq).
  - intros raw url_no_frag frag html final_url st. unfold export_page.
    destruct (title_and_desc_from_html html) as [title desc].
    destruct (path_for_url raw (cfg_output_dir cfg)) as [out_path stem].
    reflexivity.
Qed.

End BreadthFirst.

Example schedule_on_the_site :
  @schedule Urllib.model Site.parser Site.plain (Site.config [Site.api_url] 5) 5
     (initial_state (Site.config [Site.api_url] 5)) [0%nat]
  = [ Dequeued Site.api_url 0; Enqueued Site.intro_url 1; Dequeued Site.intro_url 1 ].
Proof. vm_compute. reflexivity. Qed.

(* ===================================================================== *)
(** * More about [slugify] *)
(* ===================================================================== *)

Lemma drop_while_head (p : ascii -> bool) (s : str) :
  match drop_while p s with c :: _ => p c = false | [] => True end.
Proof.
  induction s as [ | c t IH]; simpl; [exact I | ].
  destruct (p c) eqn:E; [exact IH | exact E].
Qed.

Lemma drop_while_keeps (p : ascii -> bool) (s : str) :
  match s with c :: _ => p c = false | [] => True end -> drop_while p s = s.
Proof. destruct s as [ | c t]; simpl; [reflexivity | ]. intros ->. reflexivity. Qed.

Lemma strip_with_ends (p : ascii -> bool) (s : str) : ends_clear p (strip_with p s).
Proof.
  unfold ends_clear, strip_with. split.
  - pose proof (drop_while_head p s) as Hh.
    destruct (drop_while p s) as [ | c x]; [exact I | ].
    change (rev (drop_while p (rev (c :: x)))) with (rstrip_with p (c :: x)).
    rewrite rstrip_with_cons. simpl. rewrite Hh. exact Hh.
  - rewrite rev_involutive. apply drop_while_head.
Qed.

Lemma strip_with_clear (p : ascii -> bool) (s : str) :
  ends_clear p s -> strip_with p s = s.
Proof.
  intros [Hh Ht]. unfold strip_with.
  rewrite (drop_while_keeps p s Hh), (drop_while_keeps p (rev s) Ht).
  apply rev_involutive.
Qed.

Lemma strip_with_idempotent (p : ascii -> bool) (s : str) :
  strip_with p (strip_with p s) = strip_with p s.
Proof. apply strip_with_clear, strip_with_ends. Qed.

Lemma in_strip_with (p : ascii -> bool) (c : ascii) (s : str) :
  In c (strip_with p s) -> In c s.
Proof.
  unfold strip_with. intros Hin. apply in_rev in Hin.
  assert (Hin' : In c (rev (drop_while p s))).
  { rewrite <- (take_drop_while p (rev (drop_while p s))).
    apply in_or_app. right. exact Hin. }
  apply in_rev in Hin'. rewrite <- (take_drop_while p s).
  apply in_or_app. right. exact Hin'.
Qed.

(** [slugify] in one pass: lowercase the stripped text, turn every run of
    characters that are no slug characters, or hyphens, into one hyphen,
    trim the ends. *)
Lemma slugify_one_pass (text : str) :
  slugify text
  = or_else (strip_with trimmed (sub_runs dashed "-" false (lower (strip text)))) "index".
Proof.
  unfold slugify, re_sub_plus, strip_chars. cbv zeta.
  change (fun c => negb (slug_char c)) with non_slug.
  rewrite two_subs_one_pass by discriminate. reflexivity.
Qed.

Lemma lower_char_safe (c : ascii) :
  dashed (lower_char c) = false -> safe_char (lower_char c) = true.
Proof. each_char c. Qed.

Lemma sub_runs_safe (b : bool) (s : str) (c : ascii) :
  In c (sub_runs dashed "-" b (lower s)) -> safe_char c = true.
Proof.
  revert b. induction s as [ | x t IH]; intros b; simpl; [contradiction | ].
  destruct (dashed (lower_char x)) eqn:E.
  - intros Hin. apply in_app_or in Hin. destruct Hin as [Hin | Hin]; [ | exact (IH _ Hin) ].
    destruct b; simpl in Hin; [contradiction | ].
    destruct Hin as [<- | []]. reflexivity.
  - intros [<- | Hin]; [apply lower_char_safe; exact E | exact (IH _ Hin)].
Qed.

Lemma hyphens_single_app_inv (a b : str) :
  hyphens_single (a ++ b) -> hyphens_single b.
Proof.
  induction a as [ | c t IH]; [tauto | ]. simpl. intros [_ Ht]. exact (IH Ht).
Qed.

Lemma hyphens_single_rev (s : str) : hyphens_single s -> hyphens_single (rev s).
Proof.
  induction s as [ | c t IH]; [tauto | ]. simpl. intros [Hc Ht].
  specialize (IH Ht). revert IH.
  assert (Hsnoc : forall r, hyphens_single r ->
                    match rev r with
                    | d :: _ => ~ (is_hyphen d = true /\ is_hyphen c = true)
                    | [] => True
                    end -> hyphens_single (r ++ [c])).
  { induction r as [ | d r IHr]; simpl; [tauto | ].
    intros [Hd Hr] Hl. split.
    - destruct r as [ | e r']; simpl in *; [exact Hl | exact Hd].
    - apply IHr; [exact Hr | ].
      destruct (rev r) eqn:Er; simpl in *; [exact I | exact Hl]. }
  intros IH. apply Hsnoc; [exact IH | ].
  rewrite rev_involutive. destruct t as [ | d t']; [exact I | ].
  intros [A B]. apply Hc. split; assumption.
Qed.

Lemma hyphens_single_strip (p : ascii -> bool) (s : str) :
  hyphens_single s -> hyphens_single (strip_with p s).
Proof.
  intros Hs. unfold strip_with. apply hyphens_single_rev.
  apply (hyphens_single_app_inv (take_while p (rev (drop_while p s)))).
  rewrite take_drop_while. apply hyphens_single_rev.
  apply (hyphens_single_app_inv (take_while p s)).
  rewrite take_drop_while. exact Hs.
Qed.

Lemma is_hyphen_dashed (c : ascii) : is_hyphen c = true -> dashed c = true.
Proof. each_char c. Qed.

Lemma sub_runs_hyphens (b : bool) (s : str) :
  hyphens_single (sub_runs dashed "-" b s) /\
  (b = true ->
   match sub_runs dashed "-" b s with c :: _ => is_hyphen c = false | [] => True end).
Proof.
  revert b. induction s as [ | c t IH]; intros b; simpl; [tauto | ].
  destruct (dashed c) eqn:E.
  - destruct (IH true) as [Hs Hh]. specialize (Hh eq_refl).
    destruct b; simpl; [tauto | ]. split; [ | discriminate ].
    split; [ | exact Hs ].
    destruct (sub_runs dashed "-" true t); [exact I | ].
    intros [_ B]. congruence.
  - destruct (IH false) as [Hs _].
    assert (Hc : is_hyphen c = false).
    { destruct (is_hyphen c) eqn:Ec; [ | reflexivity ].
      apply is_hyphen_dashed in Ec. congruence. }
    split; [ | intros _; exact Hc ].
    split; [ | exact Hs ].
    destruct (sub_runs dashed "-" false t); [exact I | ].
    intros [A _]. congruence.
Qed.

(** The shape of every slug. *)
Lemma slugify_shape (text : str) :
  slugify text <> [] /\ forallb safe_char (slugify text) = true /\
  ends_clear trimmed (slugify text) /\ hyphens_single (slugify text).
Proof.
  rewrite slugify_one_pass.
  set (r := strip_with trimmed (sub_runs dashed "-" false (lower (strip text)))).
  assert (Hs : forallb safe_char r = true).
  { apply forallb_forall. intros c Hc. apply in_strip_with in Hc.
    exact (sub_runs_safe false (strip text) c Hc). }
  assert (He : ends_clear trimmed r) by apply strip_with_ends.
  assert (Hh : hyphens_single r).
  { apply hyphens_single_strip. apply sub_runs_hyphens. }
  destruct r as [ | c r'] eqn:Er.
  - cbn. repeat split; try discriminate; try reflexivity;
      intros [A _]; discriminate A.
  - cbn [or_else truthy].
    split; [discriminate | split; [exact Hs | split; [exact He | exact Hh] ] ].
Qed.

(** X1. A slug is a safe file name: it is not empty, it holds only
    lowercase letters, digits, [-], [_] and [.], it neither starts nor ends
    with [-], [.] or [_], and no hyphen follows a hyphen.  So it is never
    [.] or [..] and holds no slash. *)
Theorem slugify_safe_name (text : str) :
  slugify text <> [] /\
  forallb safe_char (slugify text) = true /\
  ends_clear trimmed (slugify text) /\
  hyphens_single (slugify text) /\
  ~ In "/"%char (slugify text) /\ slugify text <> "." /\ slugify text <> "..".
Proof.
  destruct (slugify_shape text) as (Hne & Hs & He & Hh).
  split; [exact Hne | split; [exact Hs | split; [exact He | split; [exact Hh | ] ] ] ].
  split; [ | split ].
  - intros Hin. rewrite forallb_forall in Hs. specialize (Hs _ Hin). discriminate.
  - intros E. rewrite E in He. destruct He as [He _]. discriminate.
  - intros E. rewrite E in He. destruct He as [He _]. discriminate.
Qed.

Lemma safe_char_lower (c : ascii) : safe_char c = true -> lower_char c = c.
Proof. each_char c. Qed.

Lemma safe_char_dashed (c : ascii) : safe_char c = true -> dashed c = is_hyphen c.
Proof. each_char c. Qed.

Lemma trimmed_of_space (c : ascii) : trimmed c = false -> safe_char c = true -> isspace c = false.
Proof. each_char c. Qed.

Lemma sub_runs_fixed (b : bool) (s : str) :
  forallb safe_char s = true -> hyphens_single s ->
  (b = true -> match s with c :: _ => is_hyphen c = false | [] => True end) ->
  sub_runs dashed "-" b s = s.
Proof.
  revert b. induction s as [ | c t IH]; intros b Hs Hh Hb; [reflexivity | ].
  simpl in Hs. apply andb_true_iff in Hs. destruct Hs as [Hc Ht].
  simpl in Hh. destruct Hh as [Hct Hh].
  simpl. rewrite (safe_char_dashed c Hc).
  destruct (is_hyphen c) eqn:Ec.
  - destruct b; [specialize (Hb eq_refl); simpl in Hb; congruence | ].
    simpl. apply Ascii.eqb_eq in Ec. subst c. f_equal.
    apply IH; [exact Ht | exact Hh | ].
    intros _. destruct t as [ | d t']; [exact I | ].
    destruct (is_hyphen d) eqn:Ed; [ | reflexivity ].
    exfalso. apply Hct. split; reflexivity.
  - f_equal. apply IH; [exact Ht | exact Hh | discriminate ].
Qed.

(** A safe name is its own slug. *)
Lemma slugify_fixed (r : str) :
  r <> [] -> forallb safe_char r = true -> ends_clear trimmed r -> hyphens_single r ->
  slugify r = r.
Proof.
  intros Hne Hs He Hh. rewrite slugify_one_pass.
  assert (Hstrip : strip r = r).
  { apply strip_with_clear. destruct He as [H1 H2]. split.
    - destruct r as [ | c t]; [exact I | ].
      simpl in Hs. apply andb_true_iff in Hs. apply trimmed_of_space; tauto.
    - destruct (rev r) as [ | c t] eqn:Er; [exact I | ].
      apply trimmed_of_space; [exact H2 | ].
      rewrite forallb_forall in Hs. apply Hs. apply in_rev. rewrite Er. left. reflexivity. }
  assert (Hlow : lower r = r).
  { unfold lower. rewrite <- (map_id r) at 2. apply map_ext_in.
    intros c Hc. apply safe_char_lower. rewrite forallb_forall in Hs. exact (Hs c Hc). }
  rewrite Hstrip, Hlow, sub_runs_fixed; try assumption; [ | discriminate ].
  rewrite strip_with_clear by exact He.
  destruct r; [contradiction | reflexivity].
Qed.

(** X2. [slugify] is idempotent: a slug is its own slug. *)
Theorem slugify_idempotent (text : str) : slugify (slugify text) = slugify text.
Proof.
  destruct (slugify_shape text) as (Hne & Hs & He & Hh).
  apply slugify_fixed; assumption.
Qed.

(* ===================================================================== *)
(** * More about the address mapper *)
(* ===================================================================== *)

Lemma endswith_slash_app (a b : str) :
  b <> [] -> endswith_slash (a ++ b) = endswith_slash b.
Proof.
  intros Hb. unfold endswith_slash. rewrite rev_app_distr.
  destruct (rev b) as [ | c r] eqn:E; [ | reflexivity ].
  apply (f_equal (@rev ascii)) in E. rewrite rev_involutive in E. contradiction.
Qed.

Lemma safe_name_relative (c : str) :
  safe_name c ->
  truthy c = true /\ startswith c "/" = false /\ endswith_slash c = false.
Proof.
  intros (Hne & Hs & _). rewrite forallb_forall in Hs. repeat split.
  - destruct c; [contradiction | reflexivity].
  - destruct c as [ | x t]; [reflexivity | ]. cbn [startswith].
    destruct (Ascii.eqb "/" x) eqn:E; [ | reflexivity ].
    apply Ascii.eqb_eq in E. subst x. specialize (Hs "/"%char (or_introl eq_refl)).
    discriminate.
  - unfold endswith_slash. destruct (rev c) as [ | x t] eqn:E; [reflexivity | ].
    destruct (Ascii.eqb x "/") eqn:Ex; [ | reflexivity ].
    apply Ascii.eqb_eq in Ex. subst x.
    assert (Hin : In "/"%char c) by (apply in_rev; rewrite E; left; reflexivity).
    specialize (Hs _ Hin). discriminate.
Qed.

Lemma path_join2_relative (a b : str) :
  safe_name b ->
  path_join2 a b = a ++ sep_after a ++ b /\ sep_after (path_join2 a b) = "/".
Proof.
  intros Hb. destruct (safe_name_relative b Hb) as (Ht & Hs & He).
  assert (Hj : path_join2 a b = a ++ sep_after a ++ b).
  { unfold path_join2, sep_after. rewrite Hs.
    destruct (negb (truthy a) || endswith_slash a); reflexivity. }
  split; [exact Hj | ].
  assert (Hbne : b <> []) by (destruct b; [discriminate | discriminate]).
  rewrite Hj. unfold sep_after.
  rewrite app_assoc, (endswith_slash_app _ b Hbne), He.
  assert (Htr : forall x, truthy (x ++ b) = true).
  { intros x. destruct b; [contradiction | ]. destruct x; reflexivity. }
  rewrite Htr. reflexivity.
Qed.

(** Joining safe components gives the base, a separator if the base needs
    one, and the components with slashes between them. *)
Lemma os_path_join_relative (a : str) (parts : list str) :
  parts <> [] -> Forall safe_name parts ->
  os_path_join a parts = a ++ sep_after a ++ join "/" parts.
Proof.
  revert a. induction parts as [ | b rest IH]; intros a Hne Hall; [contradiction | ].
  inversion Hall as [ | ? ? Hb Hrest]; subst.
  destruct (path_join2_relative a b Hb) as [Hj Hsep].
  unfold os_path_join in *. cbn [fold_left].
  destruct rest as [ | c rest'].
  - simpl. exact Hj.
  - rewrite IH by (try discriminate; exact Hrest).
    rewrite Hsep, Hj. change (join "/" (b :: c :: rest')) with (b ++ "/" ++ join "/" (c :: rest')).
    rewrite <- !app_assoc. reflexivity.
Qed.

Lemma slugify_is_safe_name (text : str) : safe_name (slugify text).
Proof.
  destruct (slugify_shape text) as (Hne & Hs & [He _] & _).
  split; [exact Hne | split; [exact Hs | exact He] ].
Qed.

Lemma safe_name_app (a b : str) :
  safe_name a -> forallb safe_char b = true -> safe_name (a ++ b).
Proof.
  intros (Hne & Hs & Hh) Hb. split; [ | split ].
  - destruct a; [contradiction | discriminate].
  - rewrite forallb_app, Hs, Hb. reflexivity.
  - destruct a; [contradiction | exact Hh].
Qed.

Lemma safe_name_plain (c : str) :
  safe_name c -> c <> "." /\ c <> ".." /\ ~ In "/"%char c.
Proof.
  intros (Hne & Hs & Hh). repeat split.
  - intros ->. discriminate.
  - intros ->. discriminate.
  - intros Hin. rewrite forallb_forall in Hs. specialize (Hs _ Hin). discriminate.
Qed.

(** The parts of the file path: folders, of which there is at least one,
    and a stem, all joined to the base. *)
Lemma path_for_url_parts {U : UrlLib} (url base_dir : str) :
  exists folders stem,
    folders <> [] /\
    path_for_url url base_dir
    = (os_path_join (os_path_join base_dir (map slugify folders)) [stem ++ ".md"], stem) /\
    safe_name (stem ++ ".md").
Proof.
  unfold path_for_url. destruct (urldefrag url) as [url_no_frag frag].
  set (segs0 := filter truthy (split_on "/" (or_else (path (urlparse url_no_frag)) "/"))).
  set (segs := match segs0 with [] => ["index"] | _ :: _ => segs0 end).
  set (stem := if truthy frag
               then slugify (or_else (last segs []) "index") ++ "__" ++ slugify frag
               else slugify (or_else (last segs []) "index")).
  set (folders := if (1 <? length segs)%nat then removelast segs else ["root"]).
  cbv zeta. exists folders, stem. split; [ | split; [reflexivity | ] ].
  - unfold folders. destruct (1 <? length segs)%nat eqn:E; [ | discriminate ].
    apply Nat.ltb_lt in E. destruct segs as [ | a [ | b r]]; simpl in E; try lia.
    simpl. discriminate.
  - unfold stem. destruct (truthy frag).
    + rewrite <- !app_assoc. apply safe_name_app; [apply slugify_is_safe_name | ].
      rewrite !forallb_app.
      destruct (slugify_shape frag) as (_ & Hs & _). rewrite Hs. reflexivity.
    + apply safe_name_app; [apply slugify_is_safe_name | reflexivity].
Qed.

Lemma slugs_are_safe (folders : list str) (name : str) :
  safe_name name -> Forall safe_name (map slugify folders ++ [name]).
Proof.
  intros Hname. apply Forall_app. split.
  - apply Forall_forall. intros c Hc. apply in_map_iff in Hc.
    destruct Hc as [x [<- _]]. apply slugify_is_safe_name.
  - constructor; [exact Hname | constructor].
Qed.

(** X3. The file of a URL lies under the output directory: its path is
    the output directory, a slash unless the directory is empty or ends
    with one, and then at least two components separated by slashes, the
    last being the stem followed by [.md].  Every component is made of
    lowercase letters, digits, [-], [_], [.], starts with none of [-._],
    and so is never [.] or [..] and holds no slash. *)
Theorem path_for_url_under_base {U : UrlLib} (url base_dir : str) :
  exists dirs,
    dirs <> [] /\
    fst (path_for_url url base_dir)
    = base_dir ++ sep_after base_dir
      ++ join "/" (dirs ++ [snd (path_for_url url base_dir) ++ ".md"]) /\
    Forall (fun c => safe_name c /\ c <> "." /\ c <> ".." /\ ~ In "/"%char c)
           (dirs ++ [snd (path_for_url url base_dir) ++ ".md"]).
Proof.
  destruct (path_for_url_parts url base_dir) as (folders & stem & Hfold & -> & Hstem).
  cbn [fst snd]. pose proof (slugs_are_safe folders _ Hstem) as Hall.
  exists (map slugify folders). split; [ | split ].
  - destruct folders; [contradiction | discriminate].
  - unfold os_path_join. rewrite <- fold_left_app.
    apply (os_path_join_relative base_dir); [ | exact Hall ].
    destruct (map slugify folders); discriminate.
  - eapply Forall_impl; [ | exact Hall ].
    intros c Hc. split; [exact Hc | apply safe_name_plain; exact Hc].
Qed.

Lemma last_of_map {A B} (f : A -> B) (l : list A) (d : A) (d' : B) :
  l <> [] -> last (map f l) d' = f (last l d).
Proof.
  induction l as [ | x l IH]; intros Hne; [contradiction | ].
  destruct l as [ | y l]; [reflexivity | ].
  change (last (map f (x :: y :: l)) d') with (last (map f (y :: l)) d').
  change (last (x :: y :: l) d) with (last (y :: l) d).
  apply IH. discriminate.
Qed.

Lemma removelast_of_map {A B} (f : A -> B) (l : list A) :
  removelast (map f l) = map f (removelast l).
Proof.
  induction l as [ | x l IH]; [reflexivity | ].
  destruct l as [ | y l]; [reflexivity | ].
  change (removelast (map f (x :: y :: l))) with (f x :: removelast (map f (y :: l))).
  change (removelast (x :: y :: l)) with (x :: removelast (y :: l)).
  rewrite IH. reflexivity.
Qed.

Lemma last_in {A} (l : list A) (d : A) : l <> [] -> In (last l d) l.
Proof.
  induction l as [ | x l IH]; intros Hne; [contradiction | ].
  destruct l as [ | y l]; [left; reflexivity | ].
  right. apply IH. discriminate.
Qed.

(** [path_for_url] written over the slugs: the last one is the stem, the
    others are the folders, [root] when there is none. *)
Lemma path_for_url_by_slugs {U : UrlLib} (url base_dir : str) :
  path_for_url url base_dir
  = let stem := last (slugs url) "index"
                ++ (if truthy (snd (urldefrag url))
                    then "__" ++ slugify (snd (urldefrag url)) else []) in
    let folders := if (1 <? length (slugs url))%nat
                   then removelast (slugs url) else ["root"] in
    (os_path_join (os_path_join base_dir folders) [stem ++ ".md"], stem).
Proof.
  unfold path_for_url, slugs, segments.
  destruct (urldefrag url) as [url_no_frag frag]. cbn [fst snd].
  remember (filter truthy (split_on "/" (or_else (path (urlparse url_no_frag)) "/")))
    as segs0 eqn:Edef.
  assert (Htruthy : Forall (fun x => truthy x = true) segs0).
  { rewrite Edef. apply Forall_forall. intros x Hx. apply filter_In in Hx. apply Hx. }
  clear Edef. cbv zeta. destruct segs0 as [ | a r].
  - cbn [map length Nat.ltb Nat.leb last].
    change (or_else "index" "index") with ("index" : str).
    change (slugify "index") with ("index" : str).
    change (map slugify ["root"]) with (["root"] : list str).
    destruct (truthy frag); [reflexivity | rewrite app_nil_r; reflexivity].
  - unfold str in *.
    assert (Hne : a :: r <> []) by discriminate.
    assert (Hlast : or_else (last (a :: r) []) "index" = last (a :: r) []).
    { rewrite Forall_forall in Htruthy. unfold or_else.
      rewrite (Htruthy _ (last_in (a :: r) [] Hne)). reflexivity. }
    rewrite Hlast.
    cbn [map]. change (slugify a :: map slugify r) with (map slugify (a :: r)).
    rewrite length_map, removelast_of_map.
    pose proof (last_of_map slugify (a :: r) [] "index" Hne) as Hl.
    unfold str in *. rewrite Hl.
    destruct (1 <? length (a :: r))%nat; destruct (truthy frag);
      rewrite ?app_nil_r; reflexivity.
Qed.

(** X4. The address depends only on the slugs of the path segments and on
    the slug of the fragment: URLs whose segments have the same slugs, and
    whose fragments are both empty or have the same slug, are given the same
    file, whatever their scheme, host, query, letter case or punctuation. *)
Theorem path_for_url_depends_on_slugs {U : UrlLib} (u v base_dir : str) :
  map slugify (segments u) = map slugify (segments v) ->
  truthy (snd (urldefrag u)) = truthy (snd (urldefrag v)) ->
  slugify (snd (urldefrag u)) = slugify (snd (urldefrag v)) ->
  path_for_url u base_dir = path_for_url v base_dir.
Proof.
  intros Hs Ht Hf. rewrite !path_for_url_by_slugs. unfold slugs.
  rewrite Hs, Ht, Hf. reflexivity.
Qed.

Lemma path_for_url_depends_on_slugs_witness :
  @path_for_url Urllib.model "https://docs.example/Guide/Set Up#Step 1" "./export"
  = @path_for_url Urllib.model "http://other.example/guide//set-up/?page=2#step-1" "./export".
Proof.
  apply (@path_for_url_depends_on_slugs Urllib.model
           "https://docs.example/Guide/Set Up#Step 1"
           "http://other.example/guide//set-up/?page=2#step-1" "./export");
    vm_compute; reflexivity.
Defined.

Example addresses_on_the_site :
  @path_for_url Urllib.model "https://docs.example/" "./export"
  = ("./export/root/index.md", "index") /\
  @path_for_url Urllib.model "https://docs.example/api" "out/"
  = ("out/root/api.md", "api") /\
  @path_for_url Urllib.model "https://docs.example/a/../B c/Page.HTML#Top" ""
  = ("a/index/b-c/page.html__top.md", "page.html__top").
Proof. vm_compute. repeat split; reflexivity. Qed.

(* ===================================================================== *)
(** * More about the crawl: what a turn does *)
(* ===================================================================== *)

Section Turns.

Context {U : UrlLib} {H : HtmlLib} {W : World}.
Variable cfg : JobConfig.

(** The state after the robots question: unchanged, or one request sent
    and its answer cached under a host that was not cached. *)
Lemma allowed_shape (u : str) (st : crawl_state) :
  snd (allowed cfg u st) = st \/
  (cfg_obey_robots cfg = true /\
   dict_get (netloc (urlparse u)) (robots_cache st) = None /\
   snd (allowed cfg u st)
   = set_robots_cache
       (dict_set (netloc (urlparse u))
                 (robots_of_response (http_get (trace st) (robots_request u)))
                 (robots_cache st))
       (emit (EvGet (robots_request u)) st)).
Proof.
  unfold allowed. destruct (cfg_obey_robots cfg); cbn [negb]; [ | left; reflexivity ].
  destruct (dict_get (netloc (urlparse u)) (robots_cache st)) eqn:E.
  - left. reflexivity.
  - right. repeat split. 
Qed.

(** The state after an export. *)
Lemma export_page_shape (raw u frag html final_url : str) (st : crawl_state) :
  exists title desc content,
    export_page cfg raw u frag html final_url st
    = {| q := q st ++ discovered cfg (visited st) final_url html;
         visited := visited st;
         records := records st ++
                    [{| pr_url := raw;
                        pr_filepath := fst (path_for_url raw (cfg_output_dir cfg));
                        pr_title := title; pr_description := desc |}];
         processed := processed st + 1;
         robots_cache := robots_cache st;
         trace := (trace st ++ [EvRun u])
                  ++ [EvWrite (fst (path_for_url raw (cfg_output_dir cfg))) content] |}.
Proof.
  unfold export_page.
  destruct (title_and_desc_from_html html) as [title desc].
  destruct (path_for_url raw (cfg_output_dir cfg)) as [out_path stem].
  eexists title, desc, _. reflexivity.
Qed.

(** The five ways a turn can go. *)
Lemma turn_cases (st : crawl_state) (popped : str) (rest : list str) :
  q st = popped :: rest ->
  let raw := strip popped in
  let u := fst (urldefrag raw) in
  let st1 := set_visited (set_add u (visited st)) (set_q rest st) in
  let st2 := snd (allowed cfg u st1) in
  let st3 := emit (EvGet (html_request u)) st2 in
  loop_body cfg st = set_q rest st \/
  (truthy raw = true /\ set_mem u (visited st) = false /\
   (loop_body cfg st = st1 \/
    (domain_ok cfg u = true /\ under_prefix u (cfg_path_prefix cfg) = true /\
     (loop_body cfg st = st2 \/
      loop_body cfg st = st3 \/
      exists html final_url,
        loop_body cfg st = export_page cfg raw u (snd (urldefrag raw)) html final_url st3)))).
Proof.
  intros Hq raw u st1 st2 st3. subst raw u st1 st2 st3.
  unfold loop_body. rewrite Hq.
  destruct (truthy (strip popped)) eqn:Hraw; cbn [negb]; [ | left; reflexivity ].
  destruct (urldefrag (strip popped)) as [u frag]. cbn [fst snd].
  cbn [visited set_q].
  destruct (set_mem u (visited st)) eqn:Hv; [left; reflexivity | ].
  right. split; [reflexivity | split; [reflexivity | ] ].
  destruct (domain_ok cfg u); cbn [negb]; [ | left; reflexivity ].
  destruct (under_prefix u (cfg_path_prefix cfg)); cbn [negb]; [ | left; reflexivity ].
  right. split; [reflexivity | split; [reflexivity | ] ].
  destruct (allowed cfg u (set_visited (set_add u (visited st)) (set_q rest st)))
    as [ok st2]. cbn [snd].
  destruct ok; cbn [negb]; [ | left; reflexivity ].
  right. unfold fetch_html.
  destruct (html_of_response (http_get (trace st2) (html_request u)))
    as [[html | ] [final_url | ]]; try (left; reflexivity).
  destruct (truthy html); cbn [negb]; [ | left; reflexivity ].
  right. exists html, final_url. reflexivity.
Qed.

(** What holds at the start and is kept by every turn holds after any
    number of turns, and when the loop has stopped. *)
Lemma turns_invariant (I : crawl_state -> Prop) :
  (forall st, I st -> loop_cond cfg st = true -> I (loop_body cfg st)) ->
  forall st, I st -> forall n, I (turns cfg n st).
Proof.
  intros Hpres st Hst n. revert st Hst.
  induction n as [ | n IH]; intros st Hst; simpl; [exact Hst | ].
  destruct (loop_cond cfg st) eqn:Hc; [ | exact Hst ].
  apply IH. apply Hpres; assumption.
Qed.

Lemma crawl_invariant (I : crawl_state -> Prop) :
  I (initial_state cfg) ->
  (forall st popped rest, I st -> q st = popped :: rest -> I (loop_body cfg st)) ->
  I (final_state cfg) /\ forall n, I (turns cfg n (initial_state cfg)).
Proof.
  intros Hinit Hturn.
  assert (Hpres : forall st, I st -> loop_cond cfg st = true -> I (loop_body cfg st)).
  { intros st Hst Hc. unfold loop_cond in Hc.
    destruct (q st) as [ | popped rest] eqn:Hq; [discriminate | ].
    exact (Hturn st popped rest Hst Hq). }
  split.
  - unfold final_state. apply (acrawl_loop_invariant cfg I Hpres). exact Hinit.
  - apply (turns_invariant I Hpres). exact Hinit.
Qed.

End Turns.

(* ===================================================================== *)
(** * More about the crawl: what it keeps *)
(* ===================================================================== *)

Section Kept.

Context {U : UrlLib} {H : HtmlLib} {W : World}.
Variable cfg : JobConfig.

Ltac traces :=
  unfold page_requests, robots_requests, rendered, written,
         emit, set_q, set_visited, set_records, set_processed, set_robots_cache;
  cbn [trace visited q records processed robots_cache];
  rewrite ?flat_map_app;
  cbn [flat_map app req_follow_redirects req_url html_request robots_request];
  rewrite ?app_nil_r.

(** The robots question sends no page request, renders and writes nothing. *)
Lemma allowed_sends_no_page (u : str) (st : crawl_state) :
  page_requests (snd (allowed cfg u st)) = page_requests st /\
  rendered (snd (allowed cfg u st)) = rendered st /\
  written (snd (allowed cfg u st)) = written st.
Proof.
  destruct (allowed_shape cfg u st) as [E | (_ & _ & E)]; rewrite E.
  - repeat split.
  - traces. repeat split.
Qed.

Lemma set_mem_differ (x u : str) (s : str_set) :
  set_mem x s = true -> set_mem u s = false -> x <> u.
Proof. intros Hx Hu ->. congruence. Qed.

Lemma pages_kept_turn (st : crawl_state) (popped : str) (rest : list str) :
  pages_kept cfg st -> q st = popped :: rest -> pages_kept cfg (loop_body cfg st).
Proof.
  intros (Hnd & Hvis & Hsc) Hq.
  pose proof (turn_cases cfg st popped rest Hq) as Hcases. cbv zeta in Hcases.
  set (u := fst (urldefrag (strip popped))) in *.
  set (st1 := set_visited (set_add u (visited st)) (set_q rest st)) in *.
  assert (H1 : pages_kept cfg st1).
  { split; [exact Hnd | split; [ | exact Hsc] ].
    eapply Forall_impl; [ | exact Hvis ]. intros x Hx. apply set_mem_add_keeps. exact Hx. }
  destruct (allowed_sends_no_page u st1) as (Ap & _ & _).
  destruct (allowed_frame cfg u st1) as (_ & Av & _ & _).
  set (st2 := snd (allowed cfg u st1)) in *.
  assert (H2 : pages_kept cfg st2).
  { unfold pages_kept. rewrite Ap, Av. exact H1. }
  destruct Hcases as [E | (Hraw & Hnew & [E | (Hd & Hp & [E | [E | (html & final & E)]])])].
  - rewrite E. exact (conj Hnd (conj Hvis Hsc)).
  - rewrite E. exact H1.
  - rewrite E. exact H2.
  - rewrite E. destruct H2 as (N2 & V2 & S2).
    assert (Hfresh : ~ In u (page_requests st2)).
    { rewrite Ap. intros Hin. rewrite Forall_forall in Hvis.
      specialize (Hvis u Hin). congruence. }
    assert (Hpage : page_requests (emit (EvGet (html_request u)) st2)
                    = page_requests st2 ++ [u]) by (traces; reflexivity).
    unfold pages_kept. rewrite Hpage. cbn [visited emit].
    split; [ | split ].
    + apply NoDup_app; [exact N2 | repeat constructor; intros [] | ].
      intros x Hx [<- | []]. exact (Hfresh Hx).
    + apply Forall_app. split; [exact V2 | ].
      constructor; [ | constructor ]. rewrite Av. apply set_mem_add.
    + apply Forall_app. split; [exact S2 | ].
      constructor; [split; assumption | constructor].
  - destruct (export_page_shape cfg (strip popped) u (snd (urldefrag (strip popped)))
                html final (emit (EvGet (html_request u)) st2))
      as (title & desc & content & Eexp).
    rewrite E, Eexp. destruct H2 as (N2 & V2 & S2).
    assert (Hfresh : ~ In u (page_requests st2)).
    { rewrite Ap. intros Hin. rewrite Forall_forall in Hvis.
      specialize (Hvis u Hin). congruence. }
    assert (Hpage : page_requests
                      {| q := q (emit (EvGet (html_request u)) st2)
                              ++ discovered cfg (visited (emit (EvGet (html_request u)) st2))
                                            final html;
                         visited := visited (emit (EvGet (html_request u)) st2);
                         records := records (emit (EvGet (html_request u)) st2) ++
                           [{| pr_url := strip popped;
                               pr_filepath := fst (path_for_url (strip popped)
                                                     (cfg_output_dir cfg));
                               pr_title := title; pr_description := desc |}];
                         processed := processed (emit (EvGet (html_request u)) st2) + 1;
                         robots_cache := robots_cache (emit (EvGet (html_request u)) st2);
                         trace := (trace (emit (EvGet (html_request u)) st2) ++ [EvRun u])
                                  ++ [EvWrite (fst (path_for_url (strip popped)
                                                      (cfg_output_dir cfg))) content] |}
                    = page_requests st2 ++ [u]) by (traces; reflexivity).
    unfold pages_kept. rewrite Hpage. cbn [visited emit].
    split; [ | split ].
    + apply NoDup_app; [exact N2 | repeat constructor; intros [] | ].
      intros x Hx [<- | []]. exact (Hfresh Hx).
    + apply Forall_app. split; [exact V2 | ].
      constructor; [ | constructor ]. rewrite Av. apply set_mem_add.
    + apply Forall_app. split; [exact S2 | ].
      constructor; [split; assumption | constructor].
Qed.

(** X5. No page is requested twice in a crawl: the URLs handed to
    [fetch_html] up to any turn, and when the loop has stopped, are
    pairwise distinct, and each of them is in the visited set. *)
Theorem no_page_requested_twice :
  (NoDup (page_requests (final_state cfg)) /\
   Forall (fun u => set_mem u (visited (final_state cfg)) = true)
          (page_requests (final_state cfg))) /\
  (forall n, NoDup (page_requests (turns cfg n (initial_state cfg)))).
Proof.
  destruct (crawl_invariant cfg (pages_kept cfg)) as [Hfin Hall].
  - repeat split; constructor.
  - intros st popped rest Hst Hq. exact (pages_kept_turn st popped rest Hst Hq).
  - split.
    + destruct Hfin as (A & B & _). split; assumption.
    + intros n. destruct (Hall n) as (A & _). exact A.
Qed.

(** What an export adds to the state and to the trace. *)
Lemma export_page_effects (raw u frag html final_url : str) (st : crawl_state) :
  let st' := export_page cfg raw u frag html final_url st in
  q st' = q st ++ discovered cfg (visited st) final_url html /\
  visited st' = visited st /\
  (exists title desc,
      records st' = records st ++
        [{| pr_url := raw; pr_filepath := fst (path_for_url raw (cfg_output_dir cfg));
            pr_title := title; pr_description := desc |}]) /\
  robots_cache st' = robots_cache st /\
  page_requests st' = page_requests st /\
  robots_requests st' = robots_requests st /\
  rendered st' = rendered st ++ [u] /\
  written st' = written st ++ [fst (path_for_url raw (cfg_output_dir cfg))].
Proof.
  cbv zeta.
  destruct (export_page_shape cfg raw u frag html final_url st)
    as (title & desc & content & E).
  rewrite E. traces.
  repeat split. exists title, desc. reflexivity.
Qed.

(** What the robots question adds: nothing, or one request and one entry
    of the cache for a host that had none. *)
Lemma allowed_effects (u : str) (st : crawl_state) :
  let st' := snd (allowed cfg u st) in
  (robots_requests st' = robots_requests st /\ robots_cache st' = robots_cache st) \/
  (cfg_obey_robots cfg = true /\
   dict_get (netloc (urlparse u)) (robots_cache st) = None /\
   robots_requests st' = robots_requests st ++ [robots_url u] /\
   exists d, robots_cache st' = dict_set (netloc (urlparse u)) d (robots_cache st)).
Proof.
  cbv zeta.
  destruct (allowed_shape cfg u st) as [E | (Hobey & Hmiss & E)]; rewrite E.
  - left. split; reflexivity.
  - right. split; [exact Hobey | split; [exact Hmiss | ] ].
    traces. split; [reflexivity | eexists; reflexivity].
Qed.

Lemma in_discovered (vis : str_set) (final_url html l : str) :
  In l (discovered cfg vis final_url html) ->
  in_scope cfg l /\ set_mem l vis = false /\
  exists link, In link (extract_links final_url html) /\ l = fst (urldefrag link).
Proof.
  unfold discovered. rewrite in_flat_map. intros (link & Hlink & Hin).
  destruct (urldefrag link) as [ln rest] eqn:E.
  destruct (set_mem ln vis) eqn:Hv; [destruct Hin | ].
  destruct (domain_ok cfg ln) eqn:Hd; cbn [negb] in Hin; [ | destruct Hin].
  destruct (under_prefix ln (cfg_path_prefix cfg)) eqn:Hp; cbn [negb] in Hin;
    [ | destruct Hin].
  destruct Hin as [<- | []].
  split; [split; assumption | split; [exact Hv | ] ].
  exists link. rewrite E. split; [exact Hlink | reflexivity].
Qed.

Lemma Forall_tail {A} (P : A -> Prop) (x : A) (l : list A) :
  Forall P (x :: l) -> Forall P l.
Proof. intros Hl. inversion Hl. assumption. Qed.

Lemma scope_kept_turn (st : crawl_state) (popped : str) (rest : list str) :
  scope_kept cfg st -> q st = popped :: rest -> scope_kept cfg (loop_body cfg st).
Proof.
  intros (Hq & Hp) Eq. rewrite Eq in Hq. apply Forall_tail in Hq.
  pose proof (turn_cases cfg st popped rest Eq) as Hcases. cbv zeta in Hcases.
  set (u := fst (urldefrag (strip popped))) in *.
  set (st1 := set_visited (set_add u (visited st)) (set_q rest st)) in *.
  destruct (allowed_sends_no_page u st1) as (Ap & _ & _).
  destruct (allowed_frame cfg u st1) as (Aq & Av & _ & _).
  set (st2 := snd (allowed cfg u st1)) in *.
  assert (H1 : scope_kept cfg st1) by (split; assumption).
  assert (H2 : scope_kept cfg st2).
  { unfold scope_kept. rewrite Ap, Aq. exact H1. }
  assert (H3 : in_scope cfg u -> scope_kept cfg (emit (EvGet (html_request u)) st2)).
  { intros Hu. destruct H2 as (Q2 & P2). split; [exact Q2 | ].
    replace (page_requests (emit (EvGet (html_request u)) st2))
      with (page_requests st2 ++ [u]) by (traces; reflexivity).
    apply Forall_app. split; [exact P2 | repeat constructor; apply Hu]. }
  destruct Hcases as [E | (Hraw & Hnew & [E | (Hd & Hpre & [E | [E | (html & final & E)]])])];
    rewrite E.
  - split; assumption.
  - exact H1.
  - exact H2.
  - apply H3. split; assumption.
  - destruct (H3 (conj Hd Hpre)) as (Q3 & P3).
    destruct (export_page_effects (strip popped) u (snd (urldefrag (strip popped)))
                html final (emit (EvGet (html_request u)) st2))
      as (Xq & _ & _ & _ & Xp & _).
    unfold scope_kept. rewrite Xq, Xp. split; [ | exact P3].
    apply Forall_app. split; [exact Q3 | ].
    apply Forall_forall. intros l Hl. right.
    apply in_discovered in Hl. apply Hl.
Qed.

(** X6. The crawl stays in scope: at every turn and when the loop has
    stopped, every page that was requested passed the same-domain and the
    path-prefix filters, and every entry waiting in the frontier is a seed or
    a link that passed them. *)
Theorem crawl_stays_in_scope :
  (Forall (in_scope cfg) (page_requests (final_state cfg)) /\
   Forall (fun e => In e (cfg_seeds cfg) \/ in_scope cfg e) (q (final_state cfg))) /\
  (forall n, Forall (in_scope cfg) (page_requests (turns cfg n (initial_state cfg))) /\
             Forall (fun e => In e (cfg_seeds cfg) \/ in_scope cfg e)
                    (q (turns cfg n (initial_state cfg)))).
Proof.
  destruct (crawl_invariant cfg (scope_kept cfg)) as [Hfin Hall].
  - split; [ | constructor].
    apply Forall_forall. intros e He. left. exact He.
  - intros st popped rest Hst Hq. exact (scope_kept_turn st popped rest Hst Hq).
  - split.
    + destruct Hfin as (A & B). split; assumption.
    + intros n. destruct (Hall n) as (A & B). split; assumption.
Qed.

(** ** The robots cache *)

Lemma dict_get_none {V} (k : str) (d : list (str * V)) :
  dict_get k d = None -> ~ In k (map fst d).
Proof.
  induction d as [ | [k' v'] d IH]; cbn [dict_get map fst In]; [tauto | ].
  destruct (str_eqb k k') eqn:E; [discriminate | ].
  intros Hd [Hk | Hk]; [ | exact (IH Hd Hk)].
  subst k'. rewrite str_eqb_refl in E. discriminate.
Qed.

Lemma dict_set_fresh {V} (k : str) (v : V) (d : list (str * V)) :
  dict_get k d = None -> dict_set k v d = d ++ [(k, v)].
Proof.
  induction d as [ | [k' v'] d IH]; cbn [dict_get dict_set app]; [reflexivity | ].
  destruct (str_eqb k k'); [discriminate | ].
  intros Hd. rewrite (IH Hd). reflexivity.
Qed.

Lemma robots_kept_turn (st : crawl_state) (popped : str) (rest : list str) :
  robots_kept cfg st -> q st = popped :: rest -> robots_kept cfg (loop_body cfg st).
Proof.
  intros Hst Eq.
  pose proof (turn_cases cfg st popped rest Eq) as Hcases. cbv zeta in Hcases.
  set (u := fst (urldefrag (strip popped))) in *.
  set (st1 := set_visited (set_add u (visited st)) (set_q rest st)) in *.
  assert (H1 : robots_kept cfg st1) by exact Hst.
  assert (H2 : robots_kept cfg (snd (allowed cfg u st1))).
  { destruct (allowed_effects u st1) as [(Er & Ec) | (Hobey & Hmiss & Er & d & Ec)];
      unfold robots_kept; rewrite Er, Ec; [exact H1 | ].
    destruct H1 as (F1 & N1 & O1).
    rewrite (dict_set_fresh _ d _ Hmiss).
    split; [ | split ].
    - apply Forall2_app; [exact F1 | ].
      constructor; [ | constructor]. exists u. split; reflexivity.
    - rewrite map_app. apply NoDup_app; [exact N1 | repeat constructor; intros [] | ].
      intros k Hk [<- | []]. exact (dict_get_none _ _ Hmiss Hk).
    - intros Hoff. congruence. }
  set (st2 := snd (allowed cfg u st1)) in *.
  assert (H3 : robots_kept cfg (emit (EvGet (html_request u)) st2)).
  { unfold robots_kept.
    replace (robots_requests (emit (EvGet (html_request u)) st2))
      with (robots_requests st2) by (traces; reflexivity).
    exact H2. }
  destruct Hcases as [E | (Hraw & Hnew & [E | (Hd & Hpre & [E | [E | (html & final & E)]])])];
    rewrite E.
  - exact Hst.
  - exact H1.
  - exact H2.
  - exact H3.
  - destruct (export_page_effects (strip popped) u (snd (urldefrag (strip popped)))
                html final (emit (EvGet (html_request u)) st2))
      as (_ & _ & _ & Xc & _ & Xr & _).
    unfold robots_kept. rewrite Xc, Xr. exact H3.
Qed.

(** X7. robots.txt is asked for once per host: at every turn and when the
    loop has stopped, the requests for robots.txt and the entries of the
    cache correspond one to one and in order, each request being that of a
    URL on the entry's host; the hosts of the cache are pairwise distinct;
    and with [obey_robots] off no such request is sent at all. *)
Theorem robots_asked_once_per_host :
  robots_kept cfg (final_state cfg) /\
  (forall n, robots_kept cfg (turns cfg n (initial_state cfg))).
Proof.
  apply (crawl_invariant cfg (robots_kept cfg)).
  - split; [constructor | split; [constructor | reflexivity] ].
  - intros st popped rest Hst Hq. exact (robots_kept_turn st popped rest Hst Hq).
Qed.

(** ** Records, renderings and files *)

Lemma records_kept_turn (st : crawl_state) (popped : str) (rest : list str) :
  records_kept cfg st -> q st = popped :: rest -> records_kept cfg (loop_body cfg st).
Proof.
  intros Hst Eq.
  pose proof (turn_cases cfg st popped rest Eq) as Hcases. cbv zeta in Hcases.
  set (u := fst (urldefrag (strip popped))) in *.
  set (st1 := set_visited (set_add u (visited st)) (set_q rest st)) in *.
  assert (H1 : records_kept cfg st1).
  { destruct Hst as (A & B & C). split; [exact A | split; [ | exact C] ].
    eapply Forall_impl; [ | exact B]. intros x [Hx Hin].
    split; [apply set_mem_add_keeps; exact Hx | exact Hin]. }
  destruct (allowed_sends_no_page u st1) as (Ap & Ar & Aw).
  destruct (allowed_frame cfg u st1) as (_ & Av & Arec & _).
  set (st2 := snd (allowed cfg u st1)) in *.
  assert (H2 : records_kept cfg st2).
  { unfold records_kept. rewrite Ap, Ar, Aw, Av, Arec. exact H1. }
  assert (P3 : page_requests (emit (EvGet (html_request u)) st2) = page_requests st2 ++ [u])
    by (traces; reflexivity).
  assert (H3 : records_kept cfg (emit (EvGet (html_request u)) st2)).
  { assert (R3 : rendered (emit (EvGet (html_request u)) st2) = rendered st2)
      by (traces; reflexivity).
    assert (W3 : written (emit (EvGet (html_request u)) st2) = written st2)
      by (traces; reflexivity).
    unfold records_kept. rewrite R3, W3, P3. cbn [records visited emit].
    destruct H2 as (A & B & C). split; [exact A | split; [ | exact C] ].
    eapply Forall_impl; [ | exact B]. intros x [Hx Hin].
    split; [exact Hx | ]. apply in_or_app. left. exact Hin. }
  destruct Hcases as [E | (Hraw & Hnew & [E | (Hd & Hpre & [E | [E | (html & final & E)]])])];
    rewrite E.
  - exact Hst.
  - exact H1.
  - exact H2.
  - exact H3.
  - destruct (export_page_effects (strip popped) u (snd (urldefrag (strip popped)))
                html final (emit (EvGet (html_request u)) st2))
      as (_ & Xv & (title & desc & Xrec) & _ & Xp & _ & Xr & Xw).
    destruct H3 as ((Fw & Fr & Frec) & B & C).
    assert (Hfresh : ~ In u (rendered (emit (EvGet (html_request u)) st2))).
    { assert (R3 : rendered (emit (EvGet (html_request u)) st2) = rendered st)
        by (transitivity (rendered st2); [traces; reflexivity | exact Ar]).
      rewrite R3. intros Hin. destruct Hst as (_ & Bst & _). rewrite Forall_forall in Bst.
      destruct (Bst u Hin) as [Hv _]. congruence. }
    unfold records_kept. rewrite Xv, Xrec, Xp, Xr, Xw.
    split; [split; [ | split] | split].
    + rewrite map_app, Fw. reflexivity.
    + rewrite map_app, Fr. reflexivity.
    + apply Forall_app. split; [exact Frec | ].
      constructor; [ | constructor]. split; [reflexivity | exact Hraw].
    + apply Forall_app. split; [exact B | ].
      constructor; [ | constructor]. split.
      * cbn [visited emit]. rewrite Av. apply set_mem_add.
      * rewrite P3. apply in_or_app. right. left. reflexivity.
    + apply NoDup_app; [exact C | repeat constructor; intros [] | ].
      intros x Hx [<- | []]. exact (Hfresh Hx).
Qed.

(** X8. One record, one rendering and one file per exported page: at every
    turn and when the loop has stopped, the files written are the file paths
    of the records, in order; the pages rendered are the records' URLs
    without their fragments, in order, and no page is among them twice; each
    record's file path is [path_for_url] of its URL and its URL is not empty;
    and every rendered page had been requested before. *)
Theorem one_record_per_exported_page :
  records_kept cfg (final_state cfg) /\
  (forall n, records_kept cfg (turns cfg n (initial_state cfg))).
Proof.
  apply (crawl_invariant cfg (records_kept cfg)).
  - repeat split; constructor.
  - intros st popped rest Hst Hq. exact (records_kept_turn st popped rest Hst Hq).
Qed.

End Kept.

(* ===================================================================== *)
(** * More about the crawl: nothing to do *)
(* ===================================================================== *)

Section Idle.

Context {U : UrlLib} {H : HtmlLib} {W : World}.
Variable cfg : JobConfig.



End Idle.


(* ===================================================================== *)
(** * More about robots.txt: which lines count *)
(* ===================================================================== *)

(** A line that starts with a field name is neither blank nor a comment. *)
Lemma field_line_is_read (l : str) (c : ascii) (name : str) :
  startswith (lower l) (c :: name) = true -> c <> "#"%char ->
  negb (truthy l) || startswith l "#" = false.
Proof.
  destruct l as [ | x l]; cbn [lower map startswith truthy negb orb]; [discriminate | ].
  intros Hs Hc. apply andb_true_iff in Hs. destruct Hs as [Hx _].
  apply Ascii.eqb_eq in Hx.
  destruct (Ascii.eqb_spec "#"%char x) as [<- | Hne]; [ | reflexivity].
  exfalso. apply Hc. rewrite Hx. reflexivity.
Qed.

Lemma agent_or_disallow (line : str) :
  is_agent_line line = true -> is_disallow_line line = false.
Proof.
  unfold is_agent_line, is_disallow_line.
  destruct (lower (strip line)) as [ | x l]; cbn [startswith]; [discriminate | ].
  intros Hs. apply andb_true_iff in Hs. destruct Hs as [Hx _].
  apply Ascii.eqb_eq in Hx. subst x. reflexivity.
Qed.

(** One line of the loop, by the kind of the line. *)
Lemma robots_line_by_kind (ua : bool) (ds : str_set) (line : str) :
  robots_line (ua, ds) line
  = if is_agent_line line then (str_eqb (field_value line) "*", ds)
    else if ua && is_disallow_line line && truthy (field_value line)
         then (ua, set_add (field_value line) ds)
         else (ua, ds).
Proof.
  unfold robots_line, is_agent_line, is_disallow_line, field_value.
  destruct (startswith (lower (strip line)) "user-agent:") eqn:Ea.
  - rewrite (field_line_is_read _ _ _ Ea) by discriminate. reflexivity.
  - destruct (startswith (lower (strip line)) "disallow:") eqn:Ed.
    + rewrite (field_line_is_read _ _ _ Ed) by discriminate.
      destruct ua; cbn [andb]; [ | reflexivity].
      destruct (truthy (strip (after_colon (strip line)))); reflexivity.
    + rewrite andb_false_r. cbn [andb].
      destruct (negb (truthy (strip line)) || startswith (strip line) "#"); reflexivity.
Qed.

Lemma in_set_add_inv (p x : str) (s : str_set) : In p (set_add x s) -> p = x \/ In p s.
Proof.
  unfold set_add. destruct (set_mem x s); [tauto | ].
  intros Hin. apply in_app_or in Hin.
  destruct Hin as [Hin | [<- | []]]; [right; exact Hin | left; reflexivity].
Qed.

Lemma robots_fold_members (p : str) (lines : list str) (b : bool) (ds : str_set) :
  In p (snd (fold_left robots_line lines (b, ds))) <-> In p ds \/ disallowed_by lines b p.
Proof.
  revert b ds. induction lines as [ | line lines IH]; intros b ds.
  - cbn [fold_left snd]. split; [tauto | ].
    intros [Hin | (before & d & after & E & _)]; [exact Hin | ].
    destruct before; discriminate E.
  - cbn [fold_left]. rewrite robots_line_by_kind.
    destruct (is_agent_line line) eqn:Ea.
    + rewrite IH. split.
      * intros [Hin | (before & d & after & E & Hg & Hd & Hv & Hp)]; [left; exact Hin | ].
        right. exists (line :: before), d, after. rewrite E.
        split; [reflexivity | ].
        unfold in_wildcard_group in *. cbn [fold_left]. rewrite Ea. tauto.
      * intros [Hin | (before & d & after & E & Hg & Hd & Hv & Hp)]; [left; exact Hin | ].
        right. destruct before as [ | l0 before]; cbn [app] in E; injection E as <- ->.
        -- rewrite (agent_or_disallow _ Ea) in Hd. discriminate Hd.
        -- exists before, d, after. split; [reflexivity | ].
           unfold in_wildcard_group in *. cbn [fold_left] in Hg. rewrite Ea in Hg. tauto.
    + assert (Hshift : disallowed_by (line :: lines) b p <->
                       (b = true /\ is_disallow_line line = true /\
                        field_value line = p /\ p <> []) \/ disallowed_by lines b p).
      { split.
        - intros (before & d & after & E & Hg & Hd & Hv & Hp).
          destruct before as [ | l0 before]; cbn [app] in E; injection E as <- ->.
          + left. cbn in Hg. tauto.
          + right. exists before, d, after. split; [reflexivity | ].
            unfold in_wildcard_group in *. cbn [fold_left] in Hg. rewrite Ea in Hg. tauto.
        - intros [(Hb & Hd & Hv & Hp) | (before & d & after & E & Hg & Hd & Hv & Hp)].
          + exists [], line, lines. cbn. tauto.
          + exists (line :: before), d, after. rewrite E. split; [reflexivity | ].
            unfold in_wildcard_group in *. cbn [fold_left]. rewrite Ea. tauto. }
      rewrite Hshift.
      destruct (b && is_disallow_line line && truthy (field_value line)) eqn:Eadd.
      * apply andb_true_iff in Eadd. destruct Eadd as [Eadd Ev].
        apply andb_true_iff in Eadd. destruct Eadd as [Eb Ed].
        rewrite IH. split.
        -- intros [Hin | Hrest]; [ | tauto].
           apply in_set_add_inv in Hin. destruct Hin as [-> | Hin]; [ | tauto].
           right. left. repeat split; try assumption.
           intros E0. rewrite E0 in Ev. discriminate Ev.
        -- intros [Hin | [(_ & _ & <- & _) | Hrest]].
           ++ left. apply in_set_add_keeps. exact Hin.
           ++ left. apply in_set_add.
           ++ right. exact Hrest.
      * rewrite IH. split; [tauto | ].
        intros [Hin | [(Hb & Hd & Hv & Hp) | Hrest]]; [tauto | | tauto].
        exfalso. rewrite Hb, Hd, Hv in Eadd. cbn [andb] in Eadd.
        destruct p; [apply Hp; reflexivity | discriminate Eadd].
Qed.

(** X10. What [fetch_robots_disallows] collects from the body of
    robots.txt: a path is in the result exactly when some line of the body
    is a [Disallow] line with that path as its value, the value is not
    empty, and the last [User-agent] line before it names [*].  So an empty
    [Disallow:] adds nothing, and of two [User-agent] lines in a row only the
    second decides. *)
Theorem robots_paths_are_wildcard_disallows (text p : str) :
  In p (parse_robots text) <->
  exists before d after,
    splitlines text = before ++ d :: after /\
    in_wildcard_group before false = true /\
    is_disallow_line d = true /\
    field_value d = p /\ p <> [].
Proof.
  unfold parse_robots. rewrite robots_fold_members. unfold disallowed_by.
  split; [intros [[] | Hd]; exact Hd | intros Hd; right; exact Hd].
Qed.

Lemma wildcard_group_has_line (lines : list str) :
  in_wildcard_group lines false = true -> existsb names_all_agents lines = true.
Proof.
  induction lines as [ | l lines IH] using rev_ind; [discriminate | ].
  unfold in_wildcard_group in *. rewrite fold_left_app, existsb_app. cbn [fold_left existsb].
  unfold names_all_agents at 2.
  destruct (is_agent_line l); cbn [andb].
  - intros ->. rewrite orb_true_r. reflexivity.
  - intros Hg. rewrite (IH Hg). reflexivity.
Qed.

(** X11. A robots.txt without a [User-agent: *] line forbids nothing: the
    parsed set is empty, and every URL is allowed under an answer with this
    body, whatever [Disallow] lines it holds for other crawlers. *)
Theorem robots_for_others_forbids_nothing {U : UrlLib}
    (text url : str) (status : Z) (ct : option str) (final : str) :
  existsb names_all_agents (splitlines text) = false ->
  parse_robots text = [] /\
  allowed_by_robots url (robots_of_response (Response status ct text final)) = true.
Proof.
  intros Hnone.
  assert (Hempty : parse_robots text = []).
  { destruct (parse_robots text) as [ | p ps] eqn:E; [reflexivity | exfalso].
    assert (Hin : In p (snd (fold_left robots_line (splitlines text) (false, [])))).
    { fold (parse_robots text). rewrite E. left. reflexivity. }
    apply robots_fold_members in Hin.
    destruct Hin as [[] | (before & d & after & El & Hg & _)].
    apply wildcard_group_has_line in Hg.
    rewrite El, existsb_app, Hg in Hnone. discriminate Hnone. }
  split; [exact Hempty | ].
  cbn [robots_of_response]. destruct (negb (status =? 200)%Z); [reflexivity | ].
  rewrite Hempty. reflexivity.
Qed.

Lemma robots_for_others_forbids_nothing_witness :
  parse_robots ("User-agent: BadBot" ++ [ascii_of_N 10] ++ "Disallow: /") = [] /\
  @allowed_by_robots Urllib.model "https://docs.example/api"
    (robots_of_response
       (Response 200 None ("User-agent: BadBot" ++ [ascii_of_N 10] ++ "Disallow: /")
                 "https://docs.example/robots.txt")) = true.
Proof.
  apply (@robots_for_others_forbids_nothing Urllib.model).
  vm_compute. reflexivity.
Defined.

(** The wildcard group ends at the next [User-agent] line, and an empty
    [Disallow:] adds no path. *)
Example robots_groups :
  parse_robots ("User-agent: *" ++ [ascii_of_N 10] ++ "User-agent: BadBot" ++ [ascii_of_N 10]
                ++ "Disallow: /a") = [] /\
  parse_robots ("user-agent : *" ++ [ascii_of_N 10] ++ "Disallow: /a") = [] /\
  parse_robots ("USER-AGENT:*" ++ [ascii_of_N 10] ++ "Disallow:" ++ [ascii_of_N 10]
                ++ "# note" ++ [ascii_of_N 10] ++ "disallow: /a # tmp") = ["/a # tmp"].
Proof. vm_compute. repeat split; reflexivity. Qed.

(* ===================================================================== *)
(** * More about the slicer: the element looked up *)
(* ===================================================================== *)

Lemma find_over_app {A} (p : A -> bool) (l1 l2 : list A) :
  find p (l1 ++ l2) = match find p l1 with Some x => Some x | None => find p l2 end.
Proof.
  induction l1 as [ | x l1 IH]; cbn [app find]; [reflexivity | ].
  destruct (p x); [reflexivity | exact IH].
Qed.

Lemma locate_children (p : node -> bool) (cs : list node) :
  (fix scan (l : list node) : option (list crumb) :=
     match l with
     | [] => None
     | c :: l' => match locate p c l' with
                  | Some ch => Some ch
                  | None => scan l'
                  end
     end) cs = locate_in p cs.
Proof. induction cs as [ | c cs IH]; [reflexivity | ]. cbn [locate_in]. rewrite <- IH. reflexivity. Qed.

Lemma locate_in_by_nodes (p : node -> bool) (l : list node) :
  Forall (fun n => forall after, locates p (locate p n after) (self_and_descendants n)) l ->
  locates p (locate_in p l) (descendants l).
Proof.
  induction l as [ | c l IH]; intros Hl; [reflexivity | ].
  inversion Hl as [ | x y Hc Hrest]; subst.
  specialize (IH Hrest).
  unfold descendants in *. cbn [locate_in flat_map].
  specialize (Hc l). destruct (locate p c l) as [ch | ].
  - destruct Hc as (found & sibs & up & E & F).
    exists found, sibs, up. split; [exact E | ].
    rewrite find_over_app, F. reflexivity.
  - cbn [locates] in Hc. unfold locates in *.
    destruct (locate_in p l) as [ch | ].
    + destruct IH as (found & sibs & up & E & F).
      exists found, sibs, up. split; [exact E | ].
      rewrite find_over_app, Hc. exact F.
    + rewrite find_over_app, Hc. exact IH.
Qed.

Lemma locate_first (p : node -> bool) (n : node) (after : list node) :
  locates p (locate p n after) (self_and_descendants n).
Proof.
  revert after. induction n as [name attrs cs IH | s | s] using node_induction; intros after.
  - pose proof (locate_in_by_nodes p cs IH) as Hcs. unfold descendants in Hcs.
    cbn [locate self_and_descendants]. rewrite locate_children.
    destruct (p (Tag name attrs cs)) eqn:Ep.
    + exists (Tag name attrs cs), after, []. split; [reflexivity | ].
      cbn [find]. rewrite Ep. reflexivity.
    + unfold locates in *. destruct (locate_in p cs) as [ch | ].
      * destruct Hcs as (found & sibs & up & E & F).
        exists found, sibs, (up ++ [(Tag name attrs cs, after)]).
        rewrite E. split; [reflexivity | ]. cbn [find]. rewrite Ep. exact F.
      * cbn [find]. rewrite Ep. exact Hcs.
  - cbn [locate self_and_descendants].
    destruct (p (NavigableString s)) eqn:Ep.
    + exists (NavigableString s), after, []. split; [reflexivity | ].
      cbn [find]. rewrite Ep. reflexivity.
    + cbn [locates find flat_map]. rewrite Ep. reflexivity.
  - cbn [locate self_and_descendants].
    destruct (p (Comment s)) eqn:Ep.
    + exists (Comment s), after, []. split; [reflexivity | ].
      cbn [find]. rewrite Ep. reflexivity.
    + cbn [locates find flat_map]. rewrite Ep. reflexivity.
Qed.

Lemma locate_in_first (p : node -> bool) (l : list node) :
  locates p (locate_in p l) (descendants l).
Proof.
  apply locate_in_by_nodes. apply Forall_forall. intros n _ after. apply locate_first.
Qed.

(** X12. The slicer answers [None] exactly when the fragment is empty or no
    element of the document carries it as [id] or as [name]; and the element
    it starts from is the first one in document order with that [id], or,
    when no element has that [id], the first one with that [name]. *)
Theorem slice_needs_an_anchor {H : HtmlLib} (html fragment : str) :
  (slice_fragment_section html fragment = None <->
   fragment = [] \/
   forall n, In n (descendants (BeautifulSoup html)) ->
             has_attr_value "id" fragment n = false /\
             has_attr_value "name" fragment n = false) /\
  (forall chain, locate_fragment (BeautifulSoup html) fragment = Some chain ->
     exists anchor sibs up,
       chain = (anchor, sibs) :: up /\
       (find (has_attr_value "id" fragment) (descendants (BeautifulSoup html)) = Some anchor \/
        find (has_attr_value "id" fragment) (descendants (BeautifulSoup html)) = None /\
        find (has_attr_value "name" fragment) (descendants (BeautifulSoup html))
        = Some anchor)).
Proof.
  set (soup := BeautifulSoup html).
  pose proof (locate_in_first (has_attr_value "id" fragment) soup) as Hid.
  pose proof (locate_in_first (has_attr_value "name" fragment) soup) as Hname.
  split.
  - unfold slice_fragment_section, slice_soup, section_start, locate_fragment.
    fold soup. destruct fragment as [ | c f]; cbn [truthy negb].
    { split; [left; reflexivity | reflexivity]. }
    destruct (locate_in (has_attr_value "id" (c :: f)) soup) as [ch | ].
    + destruct Hid as (found & sibs & up & -> & F).
      split.
      * destruct (nearest_heading ((found, sibs) :: up)); discriminate.
      * intros [E | Hnone]; [discriminate E | exfalso].
        apply find_some in F. destruct F as [Hin Hp].
        destruct (Hnone found Hin) as [Hno _]. congruence.
    + destruct (locate_in (has_attr_value "name" (c :: f)) soup) as [ch | ].
      * destruct Hname as (found & sibs & up & -> & F).
        split.
        -- destruct (nearest_heading ((found, sibs) :: up)); discriminate.
        -- intros [E | Hnone]; [discriminate E | exfalso].
           apply find_some in F. destruct F as [Hin Hp].
           destruct (Hnone found Hin) as [_ Hno]. congruence.
      * cbn [locates] in Hid, Hname. split; [ | reflexivity].
        intros _. right. intros n Hin.
        split; [exact (find_none _ _ Hid n Hin) | exact (find_none _ _ Hname n Hin)].
  - intros chain. unfold locate_fragment. fold soup.
    destruct (locate_in (has_attr_value "id" fragment) soup) as [ch | ].
    + intros E. injection E as ->. destruct Hid as (found & sibs & up & -> & F).
      exists found, sibs, up. split; [reflexivity | left; exact F].
    + cbn [locates] in Hid.
      destruct (locate_in (has_attr_value "name" fragment) soup) as [ch | ]; [ | discriminate].
      intros E. injection E as ->. destruct Hname as (found & sibs & up & -> & F).
      exists found, sibs, up. split; [reflexivity | right; split; assumption].
Qed.

(* ===================================================================== *)
(** * More about title and description: their shape *)
(* ===================================================================== *)

Lemma single_spaced_runs (b : bool) (s : str) :
  single_spaced b (sub_runs isspace " " b s) = true.
Proof.
  revert b. induction s as [ | c t IH]; intros b; [reflexivity | ].
  cbn [sub_runs]. destruct (isspace c) eqn:E.
  - destruct b; cbn [app]; [apply IH | ].
    cbn [single_spaced]. replace (isspace " ") with true by reflexivity.
    rewrite (IH true). reflexivity.
  - cbn [single_spaced]. rewrite E. apply IH.
Qed.

Lemma single_spaced_lstrip (b : bool) (s : str) :
  single_spaced b s = true -> single_spaced true (drop_while isspace s) = true.
Proof.
  revert b. induction s as [ | c t IH]; intros b Hs; [reflexivity | ].
  cbn [drop_while]. cbn [single_spaced] in Hs. destruct (isspace c) eqn:E.
  - apply andb_true_iff in Hs. destruct Hs as [_ Hs]. exact (IH true Hs).
  - cbn [single_spaced]. rewrite E. exact Hs.
Qed.

Lemma single_spaced_prefix (b : bool) (s t : str) :
  single_spaced b (s ++ t) = true -> single_spaced b s = true.
Proof.
  revert b. induction s as [ | c s IH]; intros b Hs; [reflexivity | ].
  cbn [app single_spaced] in *. destruct (isspace c).
  - apply andb_true_iff in Hs. destruct Hs as [Hc Hs].
    rewrite Hc, (IH true Hs). reflexivity.
  - exact (IH false Hs).
Qed.

Lemma rstrip_with_prefix (p : ascii -> bool) (s : str) :
  s = rstrip_with p s ++ rev (take_while p (rev s)).
Proof.
  unfold rstrip_with. rewrite <- rev_app_distr, take_drop_while. symmetry. apply rev_involutive.
Qed.

Lemma single_spaced_collapse (s : str) : single_spaced true (collapse_ws s) = true.
Proof.
  unfold collapse_ws, strip, strip_with, re_sub_plus.
  change (rev (drop_while isspace (rev (drop_while isspace (sub_runs isspace " " false s)))))
    with (rstrip_with isspace (drop_while isspace (sub_runs isspace " " false s))).
  apply (single_spaced_prefix true _
           (rev (take_while isspace
                   (rev (drop_while isspace (sub_runs isspace " " false s)))))).
  rewrite <- rstrip_with_prefix.
  apply (single_spaced_lstrip false). apply single_spaced_runs.
Qed.

(** X13. The title and the description come out tidy: the title has no
    white space at either end, and in the description the only white space
    are single spaces between other characters (no line break, no tab, no
    two spaces in a row, none at the start), also after the cut at 280
    characters. *)
Theorem title_and_desc_are_tidy {H : HtmlLib} (html : str) :
  ends_clear isspace (fst (title_and_desc_from_html html)) /\
  single_spaced true (snd (title_and_desc_from_html html)) = true.
Proof.
  unfold title_and_desc_from_html, title_of_soup, desc_of_soup. cbn [fst snd].
  split.
  - destruct (find_tag "title" (BeautifulSoup html)) as [t | ];
      [ | split; reflexivity].
    destruct (node_string t) as [s | ]; [ | split; reflexivity].
    destruct (truthy s); [apply strip_with_ends | split; reflexivity].
  - destruct (find_tag "p" (BeautifulSoup html)) as [p | ]; [ | reflexivity].
    rewrite join_split_collapses.
    apply (single_spaced_prefix true _
             (skipn 280 (collapse_ws (get_text_strip " " (contents_of p))))).
    rewrite firstn_skipn. apply single_spaced_collapse.
Qed.

(** The cut can leave a space at the end of the description. *)
Example description_cut_at_a_space :
  desc_of_soup [Tag "p" [] [NavigableString (repeat "a"%char 279 ++ " b")]]
  = repeat "a"%char 279 ++ " ".
Proof. vm_compute. reflexivity. Qed.

(* ===================================================================== *)
(** * The wizard: what it hands to the crawl *)
(* ===================================================================== *)

Section WizardFacts.

Variable int : str -> option Z.

Lemma split_on_pieces (sep : ascii) (s : str) :
  Forall (fun piece => ~ In sep piece) (split_on sep s).
Proof.
  induction s as [ | c t IH]; cbn [split_on]; [repeat constructor; intros [] | ].
  destruct (Ascii.eqb_spec c sep) as [-> | Hne].
  - constructor; [intros [] | exact IH].
  - destruct (split_on sep t) as [ | w ws]; [repeat constructor; intros [E | []]; auto | ].
    inversion IH as [ | x y Hw Hws]; subst. constructor; [ | exact Hws].
    intros [E | Hin]; [exact (Hne E) | exact (Hw Hin)].
Qed.

(** X14. The configuration the wizard hands over: the page budget is at
    least 1 whatever was typed (200 when it is no number); every seed is a
    non-empty, stripped piece of the input without a comma; and an empty
    path prefix has become [None]. *)
Theorem wizard_config_is_well_formed (a : answers) (cfg : JobConfig) :
  wizard int a = Some cfg ->
  (1 <= cfg_max_pages cfg)%Z /\
  (int (ans_max_pages a) = None -> cfg_max_pages cfg = 200%Z) /\
  Forall (fun s => s <> [] /\ strip s = s /\ ~ In ","%char s) (cfg_seeds cfg) /\
  cfg_path_prefix cfg <> Some [].
Proof.
  unfold wizard. destruct (ans_start a); cbn [negb]; [ | discriminate].
  intros E. injection E as <-. cbn [cfg_max_pages cfg_seeds cfg_path_prefix].
  split; [ | split; [ | split ] ].
  - unfold max_pages_of. destruct (int (ans_max_pages a)); lia.
  - unfold max_pages_of. intros ->. reflexivity.
  - unfold seeds_of. apply Forall_flat_map.
    eapply Forall_impl; [ | apply (split_on_pieces "," (ans_seeds a))].
    intros piece Hpiece. cbn beta.
    destruct (truthy (strip piece)) eqn:Et; [ | constructor].
    constructor; [ | constructor]. split; [ | split ].
    + intros E. rewrite E in Et. discriminate Et.
    + apply strip_with_idempotent.
    + intros Hin. apply Hpiece. exact (in_strip_with isspace _ _ Hin).
  - destruct (ans_path_prefix a); cbn [truthy]; discriminate.
Qed.

(** X15. Wizard and crawl together: when the start is declined nothing is
    crawled, and otherwise the run returns at most [max(1, n)] records for a
    typed number [n], and at most 200 when the answer was no number. *)
Theorem main_is_bounded {U : UrlLib} {H : HtmlLib} {W : World} (a : answers) :
  (ans_start a = false -> main int a = None) /\
  (ans_start a = true ->
   exists recs, main int a = Some recs /\
     (Z.of_nat (length recs) <= max_pages_of int a)%Z /\
     (1 <= max_pages_of int a)%Z).
Proof.
  unfold main, wizard. split; intros ->; cbn [negb]; [reflexivity | ].
  eexists. split; [reflexivity | ].
  assert (Hpos : (1 <= max_pages_of int a)%Z)
    by (unfold max_pages_of; destruct (int (ans_max_pages a)); lia).
  split; [ | exact Hpos].
  match goal with |- context [acrawl ?c] => pose proof (counted_final c) as [Hn Hle] end.
  cbn [cfg_max_pages] in Hle. unfold acrawl. rewrite <- Hn. lia.
Qed.

End WizardFacts.

Lemma wizard_config_is_well_formed_witness :
  exists cfg, wizard decimal (typed "-3" true) = Some cfg /\
              (1 <= cfg_max_pages cfg)%Z /\
              Forall (fun s => s <> [] /\ strip s = s /\ ~ In ","%char s) (cfg_seeds cfg) /\
              cfg_path_prefix cfg <> Some [].
Proof.
  eexists. split; [reflexivity | ].
  destruct (wizard_config_is_well_formed decimal (typed "-3" true) _ eq_refl)
    as (A & _ & B & C).
  split; [exact A | split; [exact B | exact C] ].
Defined.

Example wizard_on_typed_answers :
  option_map cfg_seeds (wizard decimal (typed "-3" true))
  = Some ["https://docs.example/api"; "https://docs.example/api/intro"] /\
  option_map cfg_max_pages (wizard decimal (typed "-3" true)) = Some 1%Z /\
  option_map cfg_max_pages (wizard decimal (typed " 12 " true)) = Some 12%Z /\
  option_map cfg_max_pages (wizard decimal (typed "many" true)) = Some 200%Z /\
  option_map cfg_path_prefix (wizard decimal (typed "5" true)) = Some None /\
  wizard decimal (typed "5" false) = None.
Proof. vm_compute. repeat split; reflexivity. Qed.

Example main_on_the_site :
  option_map (map pr_url)
    (@main decimal Urllib.model Site.parser Site.plain (typed "0" true))
  = Some ["https://docs.example/api"] /\
  @main decimal Urllib.model Site.parser Site.plain (typed "0" false) = None.
Proof.
  split; [ | reflexivity].
  unfold main. cbn [wizard typed ans_start negb option_map]. unfold acrawl, final_state.
  rewrite (turns_final _ 5%nat) by (vm_compute; reflexivity).
  vm_compute. reflexivity.
Qed.

(* ===================================================================== *)
(** * More about the crawl: where it writes *)
(* ===================================================================== *)


Section Writes.

Context {U : UrlLib} {H : HtmlLib} {W : World}.
Variable cfg : JobConfig.



End Writes.

(** The crawl of the example site, seen from outside: the requests, the
    renderings and the files, in order. *)
Example trace_on_the_site :
  let st := @final_state Urllib.model Site.parser Site.plain (Site.config [Site.api_url] 2) in
  robots_requests st = [Site.robots_txt_url] /\
  page_requests st = [Site.api_url; Site.intro_url] /\
  rendered st = [Site.api_url; Site.intro_url] /\
  written st = ["./export/root/api.md"; "./export/api/intro.md"].
Proof.
  cbv zeta. unfold Site.plain.
  rewrite (site_final Site.no_robots [Site.api_url] 2 5) by (vm_compute; reflexivity).
  vm_compute. repeat split; reflexivity.
Qed.
